(** * netproxy: HTTP CONNECT tunnel dialer and proxy resolution

    A shallow embedding of [httpproxy.go] and [proxy.go] of the package
    [netproxy], and the properties of its tunnel handshake, of the
    scheme registry and of the environment resolver.

    Go strings are byte strings and are modelled by [string]; byte
    slices travelling over a connection are [list byte].  Go's multiple
    return values [(v, err)] are pairs whose components are [option]s
    ([None] is [nil]) wherever the callee is an interface method or a
    function value of unknown implementation, and sums where the callee
    is a standard-library function with a fixed contract. *)

From Stdlib Require Import ZArith Lia Ascii String List Bool.
From Stdlib.Strings Require Import Byte.
From stdpp Require Import base option list strings gmap.

Local Open Scope string_scope.
Local Open Scope Z_scope.

Set Warnings "-register-all".

(** ** Errors *)

(** The [error] values that flow through the package.
    [errorString] is what [errors.New] and [fmt.Errorf] build. *)
Inductive error : Type :=
| errorString (msg : string)
| ErrSyntax (fn num : string)          (* strconv.NumError, ErrSyntax *)
| ErrRange (fn num : string)           (* strconv.NumError, ErrRange *)
| io_EOF
| io_ErrUnexpectedEOF
| io_ErrNoProgress
| net_ErrClosed                        (* use of closed network connection *)
| badStringError (what val : string)   (* net/http *)
| ProtocolError (msg : string)         (* net/textproto *)
| OpError (op msg : string).           (* errors raised by a connection *)

(** ** Machine integers and durations *)

Definition int64_min : Z := - 2 ^ 63.
Definition int64_max : Z := 2 ^ 63 - 1.
Definition uint64_max : Z := 2 ^ 64 - 1.

(** Two's-complement wrap-around of a 64-bit signed result. *)
Definition wrap64 (z : Z) : Z := (z + 2 ^ 63) mod 2 ^ 64 - 2 ^ 63.

(** [time.Duration] is an [int64] count of nanoseconds. *)
Definition Duration : Type := Z.
Definition Millisecond : Duration := 1000000.

(** [time.Millisecond * time.Duration(n)]: an [int64] product. *)
Definition Duration_mul (a b : Duration) : Duration := wrap64 (a * b).

(** [time.Time] as nanoseconds on some clock; [t.Add(d)]. *)
Definition Time : Type := Z.
Definition Time_Add (t : Time) (d : Duration) : Time := t + d.

(** ** strconv.Atoi (int is 64 bits wide) *)

Definition digit_val (c : ascii) : option Z :=
  let n := Z.of_N (N_of_ascii c) in
  if (48 <=? n) && (n <=? 57) then Some (n - 48) else None.

(** The digit loop of [strconv.ParseUint(s, 10, 64)]: a byte that is
    not a decimal digit is a syntax error, a value above [uint64_max]
    a range error, whichever comes first from the left. *)
Fixpoint parse_uint (fn s0 s : string) (n : Z) : Z + error :=
  match s with
  | EmptyString => inl n
  | String c s' =>
      match digit_val c with
      | None => inr (ErrSyntax fn s0)
      | Some d =>
          if uint64_max <? 10 * n + d then inr (ErrRange fn s0)
          else parse_uint fn s0 s' (10 * n + d)
      end
  end.

Definition is_sign (c : ascii) : bool :=
  Ascii.eqb c "+"%char || Ascii.eqb c "-"%char.

Definition Atoi (s : string) : Z + error :=
  match s with
  | EmptyString => inr (ErrSyntax "Atoi" s)
  | String c rest =>
      let neg := Ascii.eqb c "-"%char in
      let body := if is_sign c then rest else s in
      match body with
      | EmptyString => inr (ErrSyntax "Atoi" s)
      | _ =>
          match parse_uint "Atoi" s body 0 with
          | inr e => inr e
          | inl un =>
              if negb neg && (int64_max <? un) then inr (ErrRange "Atoi" s)
              else if neg && (- int64_min <? un) then inr (ErrRange "Atoi" s)
              else inl (if neg then - un else un)
          end
      end
  end.

(** ** Dialers *)

(** [type Auth struct { User, Password string }] *)
Record Auth : Type := mkAuth { User : string; Password : string }.

(** [type httpProxy struct], over the type of its [forward] field. *)
Record httpProxy_ (D : Type) : Type := mkHTTPProxy {
  user : string;
  password : string;
  network : string;
  addr : string;
  forward : D;
  timeout : Duration
}.
Arguments mkHTTPProxy {D} _ _ _ _ _ _.
Arguments user {D} _.
Arguments password {D} _.
Arguments network {D} _.
Arguments addr {D} _.
Arguments forward {D} _.
Arguments timeout {D} _.

(** A value of the interface type [Dialer]: [nil], the package
    variable [Direct], a pointer to an [httpProxy], or a dialer implemented outside
    these two files (SOCKS5, the per-host router, or whatever a
    registered factory builds), which is identified by a name and the
    dialers it wraps. *)
Inductive Dialer : Type :=
| nilDialer
| Direct
| HTTPDialer (s : httpProxy_ Dialer)
| ForeignDialer (impl : string) (config : list string) (inner : list Dialer).

Definition httpProxy : Type := httpProxy_ Dialer.

(** The method [dialAddr] of [httpProxy]. *)
Definition dialAddr (s : httpProxy) : string :=
  if String.eqb (user s) "" then addr s
  else
    let a := user s in
    let a := if negb (String.eqb (password s) "") then a +:+ ":" +:+ password s else a in
    a +:+ "@" +:+ addr s.

(** [func HTTPProxyDialer(network, addr, auth, forward, timeout) (Dialer, error)] *)
Definition HTTPProxyDialer (network addr : string) (auth : option Auth)
    (forward : Dialer) (timeout : Duration) : Dialer * option error :=
  let s := mkHTTPProxy "" "" network addr forward timeout in
  let s := match auth with
           | Some a => mkHTTPProxy (User a) (Password a) network addr forward timeout
           | None => s
           end in
  (HTTPDialer s, None).

(** ** URLs *)

(** [url.Userinfo]: a user name and an optional password. *)
Record Userinfo : Type := mkUserinfo {
  username : string;
  upassword : string;
  passwordSet : bool
}.

(** The fields of [url.URL] that the package reads. *)
Record URL : Type := mkURL {
  Scheme : string;
  Opaque : string;
  UserInfo : option Userinfo;
  Host : string;
  Path : string
}.

(** ** The scheme registry *)

(** A factory: a [func] from a URL, a forward [Dialer] and a
    [time.Duration] to [(Dialer, error)]. *)
Abbreviation Factory := (URL -> Dialer -> Duration -> Dialer * option error).

(** [var proxySchemes], a map from scheme to factory; [None] is the nil map. *)
Abbreviation Schemes := (option (gmap string Factory)).

(** [func RegisterDialerType(scheme string, f func(...))] *)
Definition RegisterDialerType (scheme : string) (f : Factory) (proxySchemes : Schemes) : Schemes :=
  let m := match proxySchemes with
           | None => ∅
           | Some m => m
           end in
  Some (<[scheme := f]> m).

(** Code of the package that lives in other files, and the one
    standard-library function too large to embed; the resolver is
    parametric in them.
    - [ext_SOCKS5] is [SOCKS5(network, addr, auth, forward, timeout)];
    - [ext_Parse] is [url.Parse];
    - [ext_PerHost proxy bypass s] is the dialer obtained by
      [NewPerHost(proxy, bypass)] followed by [AddFromString(s)]. *)
Record Externals : Type := mkExternals {
  ext_SOCKS5 : string -> string -> option Auth -> Dialer -> Duration -> Dialer * option error;
  ext_Parse : string -> URL + error;
  ext_PerHost : Dialer -> Dialer -> string -> Dialer
}.

(** The [auth] that [FromURL] derives from [u.User]. *)
Definition auth_of_URL (u : URL) : option Auth :=
  match UserInfo u with
  | None => None
  | Some ui =>
      Some (mkAuth (username ui) (if passwordSet ui then upassword ui else ""))
  end.

(** [func FromURL(u, forward, timeout) (Dialer, error)] *)
Definition FromURL (ext : Externals) (proxySchemes : Schemes)
    (u : URL) (forward : Dialer) (timeout : Duration) : Dialer * option error :=
  let auth := auth_of_URL u in
  if String.eqb (Scheme u) "socks5" then
    ext_SOCKS5 ext "tcp" (Host u) auth forward timeout
  else if String.eqb (Scheme u) "http" || String.eqb (Scheme u) "https" then
    HTTPProxyDialer "tcp" (Host u) auth forward timeout
  else
    match proxySchemes with
    | Some m =>
        match m !! Scheme u with
        | Some f => f u forward timeout
        | None => (nilDialer, Some (errorString ("proxy: unknown scheme: " +:+ Scheme u)))
        end
    | None => (nilDialer, Some (errorString ("proxy: unknown scheme: " +:+ Scheme u)))
    end.

(** ** envOnce *)

(** The process environment; [os.Getenv] yields the empty string for a
    variable that is not set. *)
Abbreviation Environ := (gmap string string).

Definition Getenv (env : Environ) (name : string) : string :=
  default "" (env !! name).

(** [type envOnce struct { names []string; once sync.Once; val string }];
    [once] is reduced to its done flag. *)
Record envOnce : Type := mkEnvOnce {
  names : list string;
  once : bool;
  val : string
}.

(** The loop of the method [init] of [envOnce], on the value of [e.val]. *)
Fixpoint init_loop (env : Environ) (ns : list string) (v : string) : string :=
  match ns with
  | [] => v
  | n :: ns' =>
      let v' := Getenv env n in
      if negb (String.eqb v' "") then v' else init_loop env ns' v'
  end.

Definition envOnce_init (env : Environ) (e : envOnce) : envOnce :=
  mkEnvOnce (names e) (once e) (init_loop env (names e) (val e)).

(** The method [Get] of [envOnce]: [e.once.Do(e.init)], then [e.val]. *)
Definition envOnce_Get (env : Environ) (e : envOnce) : string * envOnce :=
  if once e then (val e, e)
  else
    let e' := envOnce_init env e in
    (val e', mkEnvOnce (names e') true (val e')).

(** The method [reset] of [envOnce]. *)
Definition envOnce_reset (e : envOnce) : envOnce :=
  mkEnvOnce (names e) false "".

(** The package-level variables. *)
Record Globals : Type := mkGlobals {
  allProxyEnv : envOnce;
  noProxyEnv : envOnce;
  timeoutEnv : envOnce;
  proxySchemes : Schemes
}.

(** Their values when the package is initialised. *)
Definition initial_Globals : Globals :=
  mkGlobals (mkEnvOnce ["ALL_PROXY"; "all_proxy"] false "")
            (mkEnvOnce ["NO_PROXY"; "no_proxy"] false "")
            (mkEnvOnce ["TIMEOUT"; "timeout"] false "")
            None.

(** ** FromEnvironment *)

(** The [timeout] integer that [FromEnvironment] derives from the
    resolved timeout string. *)
Definition env_timeout (timeoutString : string) : Z :=
  let timeoutString := if (String.length timeoutString =? 0)%nat then "1000" else timeoutString in
  match Atoi timeoutString with
  | inl n => n
  | inr _ => 1000
  end.

(** [func FromEnvironment() Dialer], threading the package variables
    that the [Get] calls update. *)
Definition FromEnvironment (ext : Externals) (env : Environ) (g : Globals) : Dialer * Globals :=
  let '(allProxy, ap) := envOnce_Get env (allProxyEnv g) in
  let g := mkGlobals ap (noProxyEnv g) (timeoutEnv g) (proxySchemes g) in
  if (String.length allProxy =? 0)%nat then (Direct, g)
  else
    match ext_Parse ext allProxy with
    | inr _ => (Direct, g)
    | inl proxyURL =>
        let '(timeoutString, te) := envOnce_Get env (timeoutEnv g) in
        let g := mkGlobals (allProxyEnv g) (noProxyEnv g) te (proxySchemes g) in
        let timeout := env_timeout timeoutString in
        match FromURL ext (proxySchemes g) proxyURL Direct (Duration_mul Millisecond timeout) with
        | (_, Some _) => (Direct, g)
        | (proxy, None) =>
            let '(noProxy, np) := envOnce_Get env (noProxyEnv g) in
            let g := mkGlobals (allProxyEnv g) np (timeoutEnv g) (proxySchemes g) in
            if (String.length noProxy =? 0)%nat then (proxy, g)
            else (ext_PerHost ext proxy Direct noProxy, g)
        end
    end.

(** The duration [FromEnvironment] hands to [FromURL]. *)
Definition env_timeout_duration (timeoutString : string) : Duration :=
  Duration_mul Millisecond (env_timeout timeoutString).

(** ** Connections *)

Local Open Scope list_scope.
Local Open Scope nat_scope.

(** A [net.Conn] as the forward dialer hands it over.  The peer and
    the operating system are a script: [inbound] lists what successive
    reads of the socket deliver, the [fail...] fields say which calls
    the connection rejects.  The other fields are the state that the
    calls of this package change. *)
Record net_Conn : Type := mkConn {
  inbound : list (list byte);
  outbound : list byte;
  closed : bool;
  readDeadline : option Time;
  writeDeadline : option Time;
  failSetDeadline : option error;
  failSetReadDeadline : option error;
  failSetWriteDeadline : option error;
  failWrite : option error;
  failClose : option error
}.

Definition with_inbound (c : net_Conn) (i : list (list byte)) : net_Conn :=
  mkConn i (outbound c) (closed c) (readDeadline c) (writeDeadline c)
         (failSetDeadline c) (failSetReadDeadline c) (failSetWriteDeadline c)
         (failWrite c) (failClose c).

Definition with_outbound (c : net_Conn) (o : list byte) : net_Conn :=
  mkConn (inbound c) o (closed c) (readDeadline c) (writeDeadline c)
         (failSetDeadline c) (failSetReadDeadline c) (failSetWriteDeadline c)
         (failWrite c) (failClose c).

Definition with_closed (c : net_Conn) (b : bool) : net_Conn :=
  mkConn (inbound c) (outbound c) b (readDeadline c) (writeDeadline c)
         (failSetDeadline c) (failSetReadDeadline c) (failSetWriteDeadline c)
         (failWrite c) (failClose c).

Definition with_deadlines (c : net_Conn) (r w : option Time) : net_Conn :=
  mkConn (inbound c) (outbound c) (closed c) r w
         (failSetDeadline c) (failSetReadDeadline c) (failSetWriteDeadline c)
         (failWrite c) (failClose c).

(** [conn.Read(b)] with [len(b) = n]: at most [n] bytes of the next
    delivery; what does not fit stays at the front of the queue. *)
Definition conn_Read (n : nat) (c : net_Conn) : list byte * option error * net_Conn :=
  if closed c then ([], Some net_ErrClosed, c)
  else if n =? 0 then ([], None, c)
  else
    match inbound c with
    | [] => ([], Some io_EOF, c)
    | seg :: rest =>
        if length seg <=? n then (seg, None, with_inbound c rest)
        else (firstn n seg, None, with_inbound c (skipn n seg :: rest))
    end.

(** [conn.Write(b)] *)
Definition conn_Write (b : list byte) (c : net_Conn) : option error * net_Conn :=
  if closed c then (Some net_ErrClosed, c)
  else
    match failWrite c with
    | Some e => (Some e, c)
    | None => (None, with_outbound c (outbound c ++ b))
    end.

(** [conn.Close()] *)
Definition conn_Close (c : net_Conn) : option error * net_Conn :=
  if closed c then (Some net_ErrClosed, c)
  else (failClose c, with_closed c true).

(** [conn.SetDeadline(t)] sets the read and the write deadline. *)
Definition conn_SetDeadline (t : Time) (c : net_Conn) : option error * net_Conn :=
  match failSetDeadline c with
  | Some e => (Some e, c)
  | None => (None, with_deadlines c (Some t) (Some t))
  end.

Definition conn_SetReadDeadline (t : Time) (c : net_Conn) : option error * net_Conn :=
  match failSetReadDeadline c with
  | Some e => (Some e, c)
  | None => (None, with_deadlines c (Some t) (writeDeadline c))
  end.

Definition conn_SetWriteDeadline (t : Time) (c : net_Conn) : option error * net_Conn :=
  match failSetWriteDeadline c with
  | Some e => (Some e, c)
  | None => (None, with_deadlines c (readDeadline c) (Some t))
  end.

(** ** bufio.Reader *)

(** A [bufio.Reader] on a connection: [rbuf] is [b.buf[b.r:b.w]], the
    bytes read from the connection and not yet consumed; [rerr] is the
    pending [b.err].  The connection it reads from is passed alongside,
    because the reader and whoever else holds the connection share it. *)
Record Reader : Type := mkReader {
  rbuf : list byte;
  rerr : option error
}.

(** The size of the buffer that [bufio.NewReader] allocates, and the
    number of empty reads in a row that [fill] puts up with. *)
Definition defaultBufSize : nat := 4096.
Definition maxConsecutiveEmptyReads : nat := 100.

(** [bufio.NewReader(conn)] *)
Definition NewReader : Reader := mkReader [] None.

(** [b.Buffered()] *)
Definition Buffered (r : Reader) : nat := length (rbuf r).

(** The read loop of [b.fill()], [i] attempts left. *)
Fixpoint fill_loop (i : nat) (r : Reader) (c : net_Conn) : Reader * net_Conn :=
  match i with
  | O => (mkReader (rbuf r) (Some io_ErrNoProgress), c)
  | S i' =>
      let '(bs, e, c') := conn_Read (defaultBufSize - length (rbuf r)) c in
      match e with
      | Some e => (mkReader (rbuf r ++ bs) (Some e), c')
      | None =>
          match bs with
          | [] => fill_loop i' r c'
          | _ => (mkReader (rbuf r ++ bs) (rerr r), c')
          end
      end
  end.

(** [b.fill()], called with room left in the buffer. *)
Definition fill (r : Reader) (c : net_Conn) : Reader * net_Conn :=
  fill_loop maxConsecutiveEmptyReads r c.

(** [b.Read(p)] with [len(p) = n]. *)
Definition Reader_Read (n : nat) (r : Reader) (c : net_Conn)
  : list byte * option error * Reader * net_Conn :=
  if n =? 0 then
    if 0 <? Buffered r then ([], None, r, c)
    else ([], rerr r, mkReader (rbuf r) None, c)
  else
    match rbuf r with
    | [] =>
        match rerr r with
        | Some e => ([], Some e, mkReader [] None, c)
        | None =>
            if defaultBufSize <=? n then
              let '(bs, e, c') := conn_Read n c in (bs, e, mkReader [] None, c')
            else
              let '(bs, e, c') := conn_Read defaultBufSize c in
              match bs with
              | [] => ([], e, mkReader [] None, c')
              | _ => (firstn n bs, None, mkReader (skipn n bs) e, c')
              end
        end
    | _ => (firstn n (rbuf r), None, mkReader (skipn n (rbuf r)) (rerr r), c)
    end.

(** ** Reading the proxy's answer *)

(** Line feed and carriage return. *)
Definition LF : byte := x0a.
Definition CR : byte := x0d.

(** The first line of a buffer, with its line feed, and what follows. *)
Fixpoint cut_line (l : list byte) : option (list byte * list byte) :=
  match l with
  | [] => None
  | b :: l' =>
      if Byte.eqb b LF then Some ([b], l')
      else
        match cut_line l' with
        | Some (a, r) => Some (b :: a, r)
        | None => None
        end
  end.

(** A line without its ending, [LF] or [CR LF]. *)
Definition chomp (l : list byte) : list byte :=
  match rev l with
  | a :: t =>
      if Byte.eqb a LF then
        match t with
        | b :: t' => if Byte.eqb b CR then rev t' else rev t
        | [] => []
        end
      else l
  | [] => l
  end.

(** A full buffer without a line feed is handed out as a piece of the
    line, except for a final [CR], which stays in the buffer. *)
Definition split_full (l : list byte) : list byte * list byte :=
  match rev l with
  | a :: t => if Byte.eqb a CR then (rev t, [a]) else (l, [])
  | [] => (l, [])
  end.

(** The line reader of [net/textproto] on a [bufio.Reader]: the loops
    of [ReadSlice], [ReadLine] and [readLineSlice] in one.  Each round
    looks for a line feed in the buffer, then for a pending error, then
    empties a full buffer into the line gathered so far, and otherwise
    fills the buffer from the connection. *)
Fixpoint readLineSlice (fuel : nat) (acc : list byte) (r : Reader) (c : net_Conn)
  : (list byte + error) * Reader * net_Conn :=
  match fuel with
  | O => (inr io_ErrNoProgress, r, c)
  | S fuel' =>
      match cut_line (rbuf r) with
      | Some (l, rest) => (inl (acc ++ chomp l), mkReader rest (rerr r), c)
      | None =>
          match rerr r with
          | Some e =>
              match rbuf r with
              | [] => (inr e, mkReader [] None, c)
              | _ => (inl (acc ++ rbuf r), mkReader [] None, c)
              end
          | None =>
              if defaultBufSize <=? length (rbuf r) then
                let '(piece, keep) := split_full (rbuf r) in
                readLineSlice fuel' (acc ++ piece) (mkReader keep None) c
              else
                let '(r', c') := fill r c in
                readLineSlice fuel' acc r' c'
          end
      end
  end.

(** The bytes the connection has yet to deliver. *)
Definition unread (c : net_Conn) : list byte := concat (inbound c).

(** Rounds that always suffice for one line. *)
Definition line_fuel (r : Reader) (c : net_Conn) : nat :=
  2 * length (unread c) + length (inbound c) + length (rbuf r) + 2.

(** [tp.ReadLine()] *)
Definition ReadLine (r : Reader) (c : net_Conn) : (string + error) * Reader * net_Conn :=
  match readLineSlice (line_fuel r c) [] r c with
  | (inl l, r', c') => (inl (string_of_list_byte l), r', c')
  | (inr e, r', c') => (inr e, r', c')
  end.

(** [strings.Cut(s, sep)] for a one-byte separator. *)
Fixpoint Cut (sep : ascii) (s : string) : option (string * string) :=
  match s with
  | EmptyString => None
  | String ch s' =>
      if Ascii.eqb ch sep then Some (EmptyString, s')
      else
        match Cut sep s' with
        | Some (a, b) => Some (String ch a, b)
        | None => None
        end
  end.

(** [strings.TrimLeft(s, " ")] *)
Fixpoint TrimLeft_space (s : string) : string :=
  match s with
  | String ch s' => if Ascii.eqb ch " "%char then TrimLeft_space s' else s
  | EmptyString => EmptyString
  end.

Definition is_digit (ch : ascii) : bool :=
  match digit_val ch with
  | Some _ => true
  | None => false
  end.

(** Whether [http.ParseHTTPVersion] accepts: [HTTP/] digit [.] digit. *)
Definition ParseHTTPVersion (vers : string) : bool :=
  match vers with
  | String h (String t1 (String t2 (String p (String sl
      (String a (String dot (String b EmptyString))))))) =>
      String.eqb (String h (String t1 (String t2 (String p (String sl EmptyString))))) "HTTP/"
      && Ascii.eqb dot "."%char && is_digit a && is_digit b
  | _ => false
  end.

(** What [ReadResponse] knows of the answer once its head is read:
    the parts of the status line and, in [Header], the header lines as
    they came, without their line endings. *)
Record Response : Type := mkResponse {
  Status : string;
  StatusCode : Z;
  Proto : string;
  Header : list string
}.

(** The status line, as [http.ReadResponse] takes it apart: protocol,
    status text and status code. *)
Definition parse_status_line (line : string) : (string * string * Z) + error :=
  match Cut " "%char line with
  | None => inr (badStringError "malformed HTTP response" line)
  | Some (proto, status) =>
      let status := TrimLeft_space status in
      let statusCode := match Cut " "%char status with
                        | Some (a, _) => a
                        | None => status
                        end in
      if negb (String.length statusCode =? 3) then
        inr (badStringError "malformed HTTP status code" statusCode)
      else
        match Atoi statusCode with
        | inr _ => inr (badStringError "malformed HTTP status code" statusCode)
        | inl code =>
            if (code <? 0)%Z then inr (badStringError "malformed HTTP status code" statusCode)
            else if ParseHTTPVersion proto then inl (proto, status, code)
            else inr (badStringError "malformed HTTP version" proto)
        end
  end.

(** The header lines, as [textproto.ReadMIMEHeader] takes them off
    the reader: line by line, up to and including the first empty
    line. *)
Fixpoint readHeaderLines (fuel : nat) (h : list string)
    (r : Reader) (c : net_Conn) : (list string + error) * Reader * net_Conn :=
  match fuel with
  | O => (inr io_ErrNoProgress, r, c)
  | S fuel' =>
      match ReadLine r c with
      | (inr e, r', c') => (inr e, r', c')
      | (inl line, r', c') =>
          match line with
          | EmptyString => (inl h, r', c')
          | _ => readHeaderLines fuel' (h ++ [line]) r' c'
          end
      end
  end.

(** Lines that the reader and the connection can still hold. *)
Definition header_fuel (r : Reader) (c : net_Conn) : nat :=
  length (rbuf r) + length (unread c) + 1.

Definition unexpected_EOF (e : error) : error :=
  match e with
  | io_EOF => io_ErrUnexpectedEOF
  | _ => e
  end.

(** [http.ReadResponse(br, req)] for a CONNECT request: the status
    line and the header.  The body is not read: whatever the proxy
    sent after the empty line stays in the reader or on the
    connection.

    What [net/http] and [net/textproto] require of the header lines
    differs from one release of Go to the next and is not embedded: it
    is the parameter [checks], which sees the response as read and
    returns the error with which the library refuses it, if it does:
    the form of a line (field name, colon, value, continuation), a bad
    [Content-Length], an unsupported [Transfer-Encoding], a bad
    [Trailer].  A head without header lines has nothing of the kind to
    refuse.  The checks are applied once the header is read; of a head
    that is both malformed and cut short the library may report the
    other error. *)
Definition ReadResponse (checks : Response -> option error) (r : Reader) (c : net_Conn)
  : (Response + error) * Reader * net_Conn :=
  match ReadLine r c with
  | (inr e, r1, c1) => (inr (unexpected_EOF e), r1, c1)
  | (inl line, r1, c1) =>
      match parse_status_line line with
      | inr e => (inr e, r1, c1)
      | inl (proto, status, code) =>
          match readHeaderLines (header_fuel r1 c1) [] r1 c1 with
          | (inr e, r2, c2) => (inr (unexpected_EOF e), r2, c2)
          | (inl h, r2, c2) =>
              let resp := mkResponse status code proto h in
              match h with
              | [] => (inl resp, r2, c2)
              | _ =>
                  match checks resp with
                  | Some e => (inr e, r2, c2)
                  | None => (inl resp, r2, c2)
                  end
              end
          end
      end
  end.

(** ** The tunnel *)

(** [type bufferedConn struct { net.Conn; reader *bufio.Reader }].  The
    reader reads from the very connection in [Conn]. *)
Record bufferedConn : Type := mkBufferedConn {
  Conn : net_Conn;
  reader : Reader
}.

(** The method [Read] of [bufferedConn], with [len(b) = n]. *)
Definition bufferedConn_Read (n : nat) (bc : bufferedConn)
  : list byte * option error * bufferedConn :=
  if 0 <? Buffered (reader bc) then
    let '(bs, e, r', c') := Reader_Read n (reader bc) (Conn bc) in
    (bs, e, mkBufferedConn c' r')
  else
    let '(bs, e, c') := conn_Read n (Conn bc) in
    (bs, e, mkBufferedConn c' (reader bc)).

(** Successive reads with buffers of the given lengths: the bytes of
    each read, and the connection afterwards. *)
Fixpoint read_all (ns : list nat) (bc : bufferedConn) : list (list byte) * bufferedConn :=
  match ns with
  | [] => ([], bc)
  | n :: ns' =>
      let '(bs, _, bc') := bufferedConn_Read n bc in
      let '(rest, bc'') := read_all ns' bc' in
      (bs :: rest, bc'')
  end.

(** What a [bufferedConn] has yet to hand to its reader. *)
Definition pending (bc : bufferedConn) : list byte :=
  rbuf (reader bc) ++ unread (Conn bc).

(** The [net.Conn] values that [connect] returns: the connection it
    was given, or a [bufferedConn] around it. *)
Inductive connValue : Type :=
| plainConn (c : net_Conn)
| wrappedConn (bc : bufferedConn).

(** The connection object underneath. *)
Definition raw_of (v : connValue) : net_Conn :=
  match v with
  | plainConn c => c
  | wrappedConn bc => Conn bc
  end.

(** [Close] on either; [bufferedConn] inherits it from its [Conn]. *)
Definition connValue_Close (v : connValue) : option error * connValue :=
  match v with
  | plainConn c => let '(e, c') := conn_Close c in (e, plainConn c')
  | wrappedConn bc =>
      let '(e, c') := conn_Close (Conn bc) in (e, wrappedConn (mkBufferedConn c' (reader bc)))
  end.

(** What a call of [Dial] depends on besides the receiver:
    - [rt_dial d network addr] is the result of the interface call
      [d.Dial(network, addr)] on the forward dialer, a fresh
      connection or an error; it describes a call that returns, a
      forward dialer that panics has no description here;
    - [rt_now k] is the [k]-th reading of [time.Now()];
    - [rt_request target] is the CONNECT request for [target] as
      [net/http] writes it, or the error with which it refuses to;
    - [rt_checks] is what [net/http] requires of the header lines of
      an answer, see [ReadResponse]. *)
Record Runtime : Type := mkRuntime {
  rt_dial : Dialer -> string -> string -> option net_Conn * option error;
  rt_now : nat -> Time;
  rt_request : string -> list byte + error;
  rt_checks : Response -> option error
}.

(** [connectReq.Write(conn)] *)
Definition Request_Write (rt : Runtime) (target : string) (conn : net_Conn)
  : option error * net_Conn :=
  match rt_request rt target with
  | inr e => (Some e, conn)
  | inl bytes => conn_Write bytes conn
  end.

(** The method [connect] of [httpProxy]. *)
Definition connect (rt : Runtime) (s : httpProxy) (conn : net_Conn) (target : string)
  : connValue * option error :=
  match Request_Write rt target conn with
  | (Some err, conn) => (plainConn conn, Some err)
  | (None, conn) =>
      let br := NewReader in
      match ReadResponse (rt_checks rt) br conn with
      | (inr err, br, conn) => (plainConn conn, Some err)
      | (inl resp, br, conn) =>
          if negb (StatusCode resp =? 200)%Z then
            (plainConn conn,
             Some (errorString ("unable to proxy connection: " +:+ Status resp)))
          else (wrappedConn (mkBufferedConn conn br), None)
      end
  end.

(** How a call of [Dial] ends: it returns [(conn, err)] and leaves the
    connection object of the proxy leg, if the forward dialer made
    one, in state [leg]; or it panics on a nil dereference. *)
Inductive DialOutcome : Type :=
| Returned (conn : option connValue) (err : option error) (leg : option net_Conn)
| Panicked.

Definition is_nil (d : Dialer) : bool :=
  match d with
  | nilDialer => true
  | _ => false
  end.

(** The method [Dial] of [httpProxy].  A method call on a nil
    interface value panics, be it the forward dialer or the connection
    it returned. *)
Definition Dial (rt : Runtime) (s : httpProxy) (net address : string) : DialOutcome :=
  if is_nil (forward s) then Panicked
  else
      match rt_dial rt (forward s) (network s) (dialAddr s) with
      | (leg, Some err) => Returned None (Some err) leg
      | (None, None) => Panicked
      | (Some conn, None) =>
          match conn_SetDeadline (Time_Add (rt_now rt 0) (timeout s)) conn with
          | (Some err, conn) =>
              let '(_, conn) := conn_Close conn in Returned None (Some err) (Some conn)
          | (None, conn) =>
              match conn_SetReadDeadline (Time_Add (rt_now rt 1) (timeout s)) conn with
              | (Some err, conn) =>
                  let '(_, conn) := conn_Close conn in Returned None (Some err) (Some conn)
              | (None, conn) =>
                  match conn_SetWriteDeadline (Time_Add (rt_now rt 2) (timeout s)) conn with
                  | (Some err, conn) =>
                      let '(_, conn) := conn_Close conn in Returned None (Some err) (Some conn)
                  | (None, conn) =>
                      match connect rt s conn address with
                      | (v, Some err) =>
                          let '(_, v) := connValue_Close v in
                          Returned None (Some err) (Some (raw_of v))
                      | (v, None) => Returned (Some v) None (Some (raw_of v))
                      end
                  end
              end
          end
      end.

(** ** The methods that bufferedConn inherits *)

(** [bufferedConn] embeds its [net.Conn]: every method but [Read] is
    the method of the connection underneath. *)
Definition bufferedConn_Write (b : list byte) (bc : bufferedConn)
  : option error * bufferedConn :=
  let '(e, c') := conn_Write b (Conn bc) in (e, mkBufferedConn c' (reader bc)).

Definition bufferedConn_Close (bc : bufferedConn) : option error * bufferedConn :=
  let '(e, c') := conn_Close (Conn bc) in (e, mkBufferedConn c' (reader bc)).

(** A caller's use of the connection: reads with buffers of given
    lengths and writes, in any order. *)
Inductive connOp : Type :=
| opRead (n : nat)
| opWrite (b : list byte).

(** The bytes that the reads of [ops] return, one after the other, and
    the connection afterwards. *)
Fixpoint run_ops (ops : list connOp) (bc : bufferedConn) : list byte * bufferedConn :=
  match ops with
  | [] => ([], bc)
  | opRead n :: ops' =>
      let '(bs, _, bc1) := bufferedConn_Read n bc in
      let '(rest, bc2) := run_ops ops' bc1 in
      (bs ++ rest, bc2)
  | opWrite b :: ops' =>
      let '(_, bc1) := bufferedConn_Write b bc in
      run_ops ops' bc1
  end.

(** ** Notions used in the statements *)

(** The user name and the password that a URL carries, empty when it
    carries none. *)
Definition url_user (u : URL) : string :=
  match UserInfo u with
  | Some ui => username ui
  | None => ""
  end.

Definition url_password (u : URL) : string :=
  match UserInfo u with
  | Some ui => if passwordSet ui then upassword ui else ""
  | None => ""
  end.

(** A runtime whose forward dialer is only ever asked for [(nw, ad)]:
    any other request makes the call panic. *)
Definition only_at (rt : Runtime) (nw ad : string) : Runtime :=
  mkRuntime
    (fun d nw' ad' =>
       if String.eqb nw' nw && String.eqb ad' ad then rt_dial rt d nw' ad'
       else (None, None))
    (rt_now rt) (rt_request rt) (rt_checks rt).

(** The resolution rule in the words of the specification: the first
    non-empty value wins, and the result is empty if there is none. *)
Fixpoint first_nonempty (vs : list string) : string :=
  match vs with
  | [] => ""
  | v :: vs' => if String.eqb v "" then first_nonempty vs' else v
  end.

(** The schemes that [FromURL] handles itself. *)
Definition builtin_scheme (scheme : string) : bool :=
  String.eqb scheme "socks5" || String.eqb scheme "http" || String.eqb scheme "https".

(** What [FromURL] returns for a scheme that nobody handles. *)
Definition unknown_scheme (u : URL) : Dialer * option error :=
  (nilDialer, Some (errorString ("proxy: unknown scheme: " +:+ Scheme u))).

(** The error of the first of the three deadline setters that the
    connection rejects, in the order in which [Dial] calls them. *)
Definition first_deadline_failure (c : net_Conn) : option error :=
  match failSetDeadline c with
  | Some e => Some e
  | None =>
      match failSetReadDeadline c with
      | Some e => Some e
      | None => failSetWriteDeadline c
      end
  end.

(** The connection once the three deadlines are set. *)
Definition armed (rt : Runtime) (s : httpProxy) (conn : net_Conn) : net_Conn :=
  with_deadlines conn (Some (Time_Add (rt_now rt 1) (timeout s)))
                      (Some (Time_Add (rt_now rt 2) (timeout s))).

(** [c'] is [c] up to its queue of deliveries. *)
Definition read_from (c c' : net_Conn) : Prop := c' = with_inbound c (inbound c').

(** A line on the wire. *)
Definition wire (l : list byte) : list byte := l ++ [LF].

(** A line holds no line feed; as a proposition and as a test. *)
Definition no_LF (l : list byte) : Prop := Forall (fun x => x <> LF) l.

Definition no_LFb (l : list byte) : bool :=
  forallb (fun x => negb (Byte.eqb x LF)) l.

(** An open connection whose reads never come back empty-handed. *)
Definition live (c : net_Conn) : Prop :=
  closed c = false /\ Forall (fun seg => seg <> []) (inbound c).

(** A line that is empty once its ending is removed. *)
Definition empty_line (l : list byte) : bool :=
  match chomp (wire l) with
  | [] => true
  | _ => false
  end.

(** The head of an answer on the wire: the status line, the header
    lines and the empty line that ends the header. *)
Definition response_head (status : list byte) (hdrs : list (list byte)) (blank : list byte)
  : list byte :=
  concat (map wire (status :: hdrs)) ++ wire blank.

(** The lines hold no line feed, and only the last one is empty. *)
Definition head_ok (status : list byte) (hdrs : list (list byte)) (blank : list byte) : bool :=
  forallb (fun l => no_LFb l && negb (empty_line l)) (status :: hdrs)
  && no_LFb blank && empty_line blank.

(** Rounds that the line reader can still need: every round but the
    last empties a full buffer, takes bytes off the connection, or
    ends with an error pending. *)
Definition line_measure (r : Reader) (c : net_Conn) : nat :=
  2 * length (unread c) + length (rbuf r)
  + match rerr r with
    | None => 2
    | Some _ => 1
    end.

(** ** Sample values *)

(** Sample collaborators for the instances below: a SOCKS5 factory that
    records its arguments, a parser that knows two URLs, and a router
    that records its arguments. *)
Definition sample_ext : Externals :=
  mkExternals
    (fun nw ad _ fwd _ => (ForeignDialer "socks5" [nw; ad] [fwd], None))
    (fun s =>
       if String.eqb s "http://proxy:8080" then inl (mkURL "http" "" None "proxy:8080" "")
       else if String.eqb s "gopher://proxy:70" then inl (mkURL "gopher" "" None "proxy:70" "")
       else inr (errorString "parse: invalid URL"))
    (fun p b s => ForeignDialer "perhost" [s] [p; b]).

(** An environment that names an HTTP proxy, a timeout and a bypass
    list. *)
Definition sample_env : Environ :=
  <[ "ALL_PROXY" := "http://proxy:8080" ]>
    (<[ "TIMEOUT" := "500" ]> (<[ "no_proxy" := "localhost" ]> ∅)).

(** A factory as another package would register it. *)
Definition sample_factory : Factory :=
  fun u fwd _ => (ForeignDialer "custom" [Host u] [fwd], None).

(** An open connection that rejects nothing and will deliver [segs]. *)
Definition plain_conn (segs : list (list byte)) : net_Conn :=
  mkConn segs [] false None None None None None None None.

Definition CRLF : list byte := [CR; LF].

(** The request of [net/http] for a plain [host:port] target. *)
Definition connect_request (target : string) : list byte + error :=
  inl (list_byte_of_string ("CONNECT " +:+ target +:+ " HTTP/1.1") ++ CRLF
       ++ list_byte_of_string ("Host: " +:+ target) ++ CRLF
       ++ list_byte_of_string "User-Agent: Go-http-client/1.1" ++ CRLF
       ++ CRLF).

(** A forward dialer that always comes back with [conn]; a clock that
    advances by a nanosecond per reading. *)
(** A sample of the library's checks: every header line has a colon,
    and the value of a [Content-Length] is a decimal number. *)
Fixpoint sample_check_lines (ls : list string) : option error :=
  match ls with
  | [] => None
  | l :: ls' =>
      match Cut ":"%char l with
      | None => Some (ProtocolError ("malformed MIME header line: " +:+ l))
      | Some (k, v) =>
          let v := TrimLeft_space v in
          if String.eqb k "Content-Length" then
            match v, parse_uint "ParseUint" v v 0 with
            | String _ _, inl _ => sample_check_lines ls'
            | _, _ => Some (badStringError "bad Content-Length" v)
            end
          else sample_check_lines ls'
      end
  end.

Definition sample_checks (resp : Response) : option error :=
  sample_check_lines (Header resp).

Definition sample_runtime (conn : net_Conn) : Runtime :=
  mkRuntime (fun _ _ _ => (Some conn, None)) (fun k => Z.of_nat k) connect_request
            sample_checks.

(** A forward dialer that refuses every request with an error that
    says what it was asked for. *)
Definition echo_runtime : Runtime :=
  mkRuntime (fun _ nw ad => (None, Some (errorString (nw +:+ " " +:+ ad))))
            (fun k => Z.of_nat k) connect_request sample_checks.

(** A tunnel dialer with credentials and a timeout of 5 ms. *)
Definition sample_proxy : httpProxy :=
  mkHTTPProxy "user" "secret" "tcp" "proxy:8080" Direct 5000000%Z.

(** A proxy that asks for authentication, answering in three pieces. *)
Definition conn_407 : net_Conn :=
  plain_conn
    [list_byte_of_string "HTTP/1.1 407 Proxy Authentication Required" ++ CRLF
       ++ list_byte_of_string "Proxy-Authenticate: Basic";
     CRLF ++ [CR];
     [LF] ++ list_byte_of_string "denied"].

(** A proxy whose 407 answer carries a [Content-Length] that is not a
    number. *)
Definition conn_407_malformed : net_Conn :=
  plain_conn
    [list_byte_of_string "HTTP/1.1 407 Proxy Authentication Required" ++ CRLF
       ++ list_byte_of_string "Content-Length: abc" ++ CRLF ++ CRLF].

(** A proxy that accepts and sends twelve bytes right away; the pieces
    cut through the status line, a header line, the line endings and
    the payload. *)
Definition conn_200 : net_Conn :=
  plain_conn
    [list_byte_of_string "HTTP/1.1 2";
     list_byte_of_string "00 Connection established" ++ CRLF
       ++ list_byte_of_string "Proxy-Agent: te";
     list_byte_of_string "st" ++ [CR];
     [LF; CR];
     [LF] ++ list_byte_of_string "hello";
     list_byte_of_string ", world"].

(** * Properties *)

(** ** Dial-address composition *)

Lemma append_assoc (a b c : string) : (a +:+ b) +:+ c = a +:+ (b +:+ c).
Proof.
  induction a as [|ch a IH]; [reflexivity|].
  exact (f_equal (String ch) IH).
Qed.

Lemma Dial_only_at (rt : Runtime) (s : httpProxy) (net address : string) :
  Dial rt s net address = Dial (only_at rt (network s) (dialAddr s)) s net address.
Proof.
  unfold Dial, only_at; simpl.
  rewrite !String.eqb_refl; simpl.
  unfold connect, Request_Write; simpl.
  reflexivity.
Qed.

(** What the forward dialer answers with an error is what [Dial]
    returns. *)
Lemma Dial_forward_error (rt : Runtime) (s : httpProxy) (net address : string)
    (leg : option net_Conn) (err : error) :
  is_nil (forward s) = false ->
  rt_dial rt (forward s) (network s) (dialAddr s) = (leg, Some err) ->
  Dial rt s net address = Returned None (Some err) leg.
Proof.
  intros Hf Hd. unfold Dial. rewrite Hf, Hd. destruct leg; reflexivity.
Qed.

(** C5: the address that the tunnel dialer hands to its forward dialer
    is the bare proxy address when no user is configured,
    [user@addr] for a user without password and [user:password@addr]
    for a user with password.  [Dial] does hand it over: it calls its
    forward dialer with the proxy network and this address, so that
    the error with which the forward dialer answers that request is
    the error of [Dial]; and it asks the forward dialer for this
    address and for no other. *)
Theorem dialAddr_composition (s : httpProxy) :
  (user s = "" -> dialAddr s = addr s) /\
  (user s <> "" -> password s = "" -> dialAddr s = user s +:+ "@" +:+ addr s) /\
  (user s <> "" -> password s <> "" ->
     dialAddr s = user s +:+ ":" +:+ password s +:+ "@" +:+ addr s) /\
  (forall rt net address,
     Dial rt s net address = Dial (only_at rt (network s) (dialAddr s)) s net address) /\
  (forall rt net address leg err,
     is_nil (forward s) = false ->
     rt_dial rt (forward s) (network s) (dialAddr s) = (leg, Some err) ->
     Dial rt s net address = Returned None (Some err) leg).
Proof.
  unfold dialAddr. repeat split.
  - intros ->. reflexivity.
  - intros Hu Hp. apply String.eqb_neq in Hu. rewrite Hu, Hp. reflexivity.
  - intros Hu Hp. apply String.eqb_neq in Hu, Hp. rewrite Hu, Hp.
    cbn [negb]. now rewrite !append_assoc.
  - intros. apply Dial_only_at.
  - intros rt net address leg err Hf Hd. now apply Dial_forward_error.
Qed.

Lemma dialAddr_composition_witness :
  dialAddr (mkHTTPProxy "user" "secret" "tcp" "proxy:8080" Direct 5%Z)
  = "user:secret@proxy:8080" /\
  Dial echo_runtime (mkHTTPProxy "user" "secret" "tcp" "proxy:8080" Direct 5%Z)
       "udp" "example.com:443"
  = Returned None (Some (errorString "tcp user:secret@proxy:8080")) None.
Proof.
  destruct (dialAddr_composition (mkHTTPProxy "user" "secret" "tcp" "proxy:8080" Direct 5%Z))
    as (_ & _ & H3 & _ & H5).
  split; [apply H3; simpl; discriminate | apply H5; reflexivity].
Defined.

(** C9: with an empty user the password plays no part: whatever the
    password, the dialer that [HTTPProxyDialer] builds computes the
    bare proxy address, and that is the only address for which [Dial]
    asks the forward dialer. *)
Theorem empty_user_ignores_password (pw nw ad : string) (fwd : Dialer) (t : Duration) :
  let s := mkHTTPProxy "" pw nw ad fwd t in
  HTTPProxyDialer nw ad (Some (mkAuth "" pw)) fwd t = (HTTPDialer s, None) /\
  dialAddr s = ad /\
  (forall rt net address,
     Dial rt s net address = Dial (only_at rt nw ad) s net address).
Proof.
  simpl. repeat split.
  intros. apply (Dial_only_at rt (mkHTTPProxy "" pw nw ad fwd t)).
Qed.

(** ** envOnce *)

Lemma init_loop_first_nonempty (env : Environ) (n : string) (ns : list string) (v : string) :
  init_loop env (n :: ns) v = first_nonempty (map (Getenv env) (n :: ns)).
Proof.
  revert n v. induction ns as [|m ns IH]; intros n v; simpl.
  - destruct (String.eqb (Getenv env n) "") eqn:E; simpl; [|reflexivity].
    now apply String.eqb_eq in E.
  - destruct (String.eqb (Getenv env n) "") eqn:E; simpl; [|reflexivity].
    apply (IH m (Getenv env n)).
Qed.

(** C8: an entry resolves to the value of the first of its names, in
    the order fixed at construction, whose variable is non-empty, and
    to the empty string if there is none; for the three entries of the
    package the upper-case name comes before the lower-case one. *)
Theorem envOnce_first_match_wins (env : Environ) :
  (forall n ns o v,
     val (envOnce_init env (mkEnvOnce (n :: ns) o v))
     = first_nonempty (map (Getenv env) (n :: ns))) /\
  (forall n ns v,
     fst (envOnce_Get env (mkEnvOnce (n :: ns) false v))
     = first_nonempty (map (Getenv env) (n :: ns))) /\
  fst (envOnce_Get env (allProxyEnv initial_Globals))
  = (if String.eqb (Getenv env "ALL_PROXY") "" then Getenv env "all_proxy"
     else Getenv env "ALL_PROXY") /\
  fst (envOnce_Get env (noProxyEnv initial_Globals))
  = (if String.eqb (Getenv env "NO_PROXY") "" then Getenv env "no_proxy"
     else Getenv env "NO_PROXY") /\
  fst (envOnce_Get env (timeoutEnv initial_Globals))
  = (if String.eqb (Getenv env "TIMEOUT") "" then Getenv env "timeout"
     else Getenv env "TIMEOUT").
Proof.
  assert (H2 : forall a b v,
             init_loop env [a; b] v
             = if String.eqb (Getenv env a) "" then Getenv env b else Getenv env a).
  { intros a b v. simpl.
    destruct (String.eqb (Getenv env a) ""); simpl; [|reflexivity].
    now destruct (String.eqb (Getenv env b) ""). }
  repeat split.
  - intros. apply init_loop_first_nonempty.
  - intros. unfold envOnce_Get. cbn [once fst envOnce_init val names].
    apply init_loop_first_nonempty.
  - apply H2.
  - apply H2.
  - apply H2.
Qed.

(** ** The scheme registry *)

(** C4: [FromURL] dispatches on the scheme: [socks5] goes to the SOCKS5
    factory, [http] and [https] to the tunnel factory; any other
    scheme is looked up in the registry and its factory called; with
    no entry the result is the error that names the scheme. *)
Theorem FromURL_dispatch (ext : Externals) (schemes : Schemes) (u : URL)
    (fwd : Dialer) (t : Duration) :
  (Scheme u = "socks5" ->
     FromURL ext schemes u fwd t = ext_SOCKS5 ext "tcp" (Host u) (auth_of_URL u) fwd t) /\
  (Scheme u = "http" \/ Scheme u = "https" ->
     FromURL ext schemes u fwd t = HTTPProxyDialer "tcp" (Host u) (auth_of_URL u) fwd t) /\
  (builtin_scheme (Scheme u) = false ->
     (forall m f, schemes = Some m -> m !! Scheme u = Some f ->
        FromURL ext schemes u fwd t = f u fwd t) /\
     (forall m, schemes = Some m -> m !! Scheme u = None ->
        FromURL ext schemes u fwd t = unknown_scheme u) /\
     (schemes = None -> FromURL ext schemes u fwd t = unknown_scheme u)).
Proof.
  unfold FromURL, builtin_scheme, unknown_scheme. repeat split.
  - intros ->. reflexivity.
  - intros [-> | ->]; reflexivity.
  - intros m f -> Hf.
    apply orb_false_iff in H as [H H3]. apply orb_false_iff in H as [H1 H2].
    rewrite H1, H2, H3, Hf. reflexivity.
  - intros m -> Hf.
    apply orb_false_iff in H as [H H3]. apply orb_false_iff in H as [H1 H2].
    rewrite H1, H2, H3, Hf. reflexivity.
  - intros ->.
    apply orb_false_iff in H as [H H3]. apply orb_false_iff in H as [H1 H2].
    rewrite H1, H2, H3. reflexivity.
Qed.

(** C10: for a built-in scheme the result of [FromURL] does not depend
    on the registry: registering a factory under any name, the scheme
    itself included, leaves it as it is with no registry at all, so
    the registered factory is never called. *)
Theorem builtin_scheme_shadows_registry (ext : Externals) (schemes : Schemes)
    (scheme : string) (f : Factory) (u : URL) (fwd : Dialer) (t : Duration) :
  builtin_scheme (Scheme u) = true ->
  FromURL ext (RegisterDialerType scheme f schemes) u fwd t = FromURL ext schemes u fwd t /\
  FromURL ext (RegisterDialerType (Scheme u) f schemes) u fwd t = FromURL ext None u fwd t.
Proof.
  unfold builtin_scheme, FromURL. intros H.
  destruct (String.eqb (Scheme u) "socks5"); [split; reflexivity|].
  simpl in H. rewrite H. split; reflexivity.
Qed.

Lemma FromURL_dispatch_witness :
  FromURL sample_ext None (mkURL "gopher" "" None "proxy:70" "") Direct 5%Z
  = unknown_scheme (mkURL "gopher" "" None "proxy:70" "").
Proof.
  apply (FromURL_dispatch sample_ext None (mkURL "gopher" "" None "proxy:70" "") Direct 5%Z);
    reflexivity.
Defined.

Lemma builtin_scheme_shadows_registry_witness :
  FromURL sample_ext (RegisterDialerType "http" sample_factory None)
          (mkURL "http" "" None "proxy:8080" "") Direct 5%Z
  = FromURL sample_ext None (mkURL "http" "" None "proxy:8080" "") Direct 5%Z.
Proof.
  apply (builtin_scheme_shadows_registry sample_ext None "http" sample_factory
           (mkURL "http" "" None "proxy:8080" "") Direct 5%Z).
  reflexivity.
Defined.

(** ** The environment resolver *)

Lemma length_zero_empty (s : string) : (String.length s =? 0)%nat = true <-> s = "".
Proof. destruct s; simpl; split; intros H; try reflexivity; discriminate. Qed.

(** [FromEnvironment] past the parsing of the proxy URL. *)
Lemma FromEnvironment_parsed (ext : Externals) (env : Environ) (g : Globals) (u : URL) :
  fst (envOnce_Get env (allProxyEnv g)) <> "" ->
  ext_Parse ext (fst (envOnce_Get env (allProxyEnv g))) = inl u ->
  fst (FromEnvironment ext env g)
  = match FromURL ext (proxySchemes g) u Direct
            (env_timeout_duration (fst (envOnce_Get env (timeoutEnv g)))) with
    | (_, Some _) => Direct
    | (proxy, None) =>
        if String.eqb (fst (envOnce_Get env (noProxyEnv g))) "" then proxy
        else ext_PerHost ext proxy Direct (fst (envOnce_Get env (noProxyEnv g)))
    end.
Proof.
  unfold FromEnvironment, env_timeout_duration.
  destruct (envOnce_Get env (allProxyEnv g)) as [ap a'] eqn:Ea.
  cbn [fst allProxyEnv noProxyEnv timeoutEnv proxySchemes]. intros Hne Hp.
  destruct (String.length ap =? 0)%nat eqn:El.
  { apply length_zero_empty in El. contradiction. }
  rewrite Hp.
  destruct (envOnce_Get env (timeoutEnv g)) as [ts t'] eqn:Et.
  cbn [fst allProxyEnv noProxyEnv timeoutEnv proxySchemes].
  destruct (FromURL ext (proxySchemes g) u Direct (Duration_mul Millisecond (env_timeout ts)))
    as [proxy [e|]]; [reflexivity|].
  destruct (envOnce_Get env (noProxyEnv g)) as [np n'] eqn:En.
  cbn [fst].
  destruct np; reflexivity.
Qed.

(** C3: [FromEnvironment] is a function into [Dialer], it has no error
    to return; its result is [Direct] when the resolved proxy string
    is empty, when that string does not parse as a URL, and when
    [FromURL] returns an error; so it is when neither [ALL_PROXY] nor
    [all_proxy] has a value at the first call. *)
Theorem FromEnvironment_degrades_to_Direct (ext : Externals) (env : Environ) (g : Globals) :
  (fst (envOnce_Get env (allProxyEnv g)) = "" ->
     fst (FromEnvironment ext env g) = Direct) /\
  (forall e, ext_Parse ext (fst (envOnce_Get env (allProxyEnv g))) = inr e ->
     fst (FromEnvironment ext env g) = Direct) /\
  (forall u d e,
     ext_Parse ext (fst (envOnce_Get env (allProxyEnv g))) = inl u ->
     FromURL ext (proxySchemes g) u Direct
       (env_timeout_duration (fst (envOnce_Get env (timeoutEnv g)))) = (d, Some e) ->
     fst (FromEnvironment ext env g) = Direct) /\
  (Getenv env "ALL_PROXY" = "" -> Getenv env "all_proxy" = "" ->
     fst (FromEnvironment ext env initial_Globals) = Direct).
Proof.
  assert (Hempty : forall g', fst (envOnce_Get env (allProxyEnv g')) = "" ->
                     fst (FromEnvironment ext env g') = Direct).
  { intros g' H. unfold FromEnvironment.
    destruct (envOnce_Get env (allProxyEnv g')) as [ap a']. cbn [fst] in H. subst ap.
    reflexivity. }
  repeat split.
  - apply Hempty.
  - intros e He.
    destruct (String.eqb_spec (fst (envOnce_Get env (allProxyEnv g))) "") as [E|E];
      [now apply Hempty|].
    unfold FromEnvironment.
    destruct (envOnce_Get env (allProxyEnv g)) as [ap a']. cbn [fst] in *.
    destruct (String.length ap =? 0)%nat; [reflexivity|].
    rewrite He. reflexivity.
  - intros u d e Hu Hf.
    destruct (String.eqb_spec (fst (envOnce_Get env (allProxyEnv g))) "") as [E|E];
      [now apply Hempty|].
    rewrite (FromEnvironment_parsed ext env g u E Hu), Hf. reflexivity.
  - intros H1 H2. apply Hempty.
    unfold envOnce_Get, initial_Globals. cbn. rewrite H1, H2. reflexivity.
Qed.

Lemma FromEnvironment_degrades_to_Direct_witness :
  fst (FromEnvironment sample_ext {[ "ALL_PROXY" := "::not a url::" ]} initial_Globals) = Direct.
Proof.
  apply (FromEnvironment_degrades_to_Direct sample_ext
           {[ "ALL_PROXY" := "::not a url::" ]} initial_Globals)
    with (e := errorString "parse: invalid URL").
  vm_compute. reflexivity.
Defined.

Lemma wrap64_small (z : Z) : (int64_min <= z <= int64_max)%Z -> wrap64 z = z.
Proof.
  unfold wrap64, int64_min, int64_max. intros H.
  rewrite Z.mod_small; lia.
Qed.

(** C6, as the code has it: the duration that [FromEnvironment] hands
    to [FromURL] is 1000 milliseconds when the resolved timeout string
    is empty or is not accepted by [Atoi], and [n] milliseconds when
    the string is the integer [n] and [n] milliseconds fit in a
    [time.Duration], that is for [n] of magnitude up to
    9223372036854. *)
Theorem env_timeout_milliseconds (ts : string) :
  (ts = "" -> env_timeout_duration ts = (1000 * Millisecond)%Z) /\
  (forall e, Atoi ts = inr e -> env_timeout_duration ts = (1000 * Millisecond)%Z) /\
  (forall n, Atoi ts = inl n -> (-9223372036854 <= n <= 9223372036854)%Z ->
     env_timeout_duration ts = (n * Millisecond)%Z) /\
  (forall ext env g u,
     ts = fst (envOnce_Get env (timeoutEnv g)) ->
     fst (envOnce_Get env (allProxyEnv g)) <> "" ->
     ext_Parse ext (fst (envOnce_Get env (allProxyEnv g))) = inl u ->
     fst (FromEnvironment ext env g)
     = match FromURL ext (proxySchemes g) u Direct (env_timeout_duration ts) with
       | (_, Some _) => Direct
       | (proxy, None) =>
           if String.eqb (fst (envOnce_Get env (noProxyEnv g))) "" then proxy
           else ext_PerHost ext proxy Direct (fst (envOnce_Get env (noProxyEnv g)))
       end).
Proof.
  repeat split.
  - intros ->. reflexivity.
  - intros e He. unfold env_timeout_duration, env_timeout.
    destruct ts; [reflexivity|].
    cbn [String.length Nat.eqb]. rewrite He. reflexivity.
  - intros n Hn Hr. unfold env_timeout_duration, env_timeout.
    destruct ts; [discriminate|].
    cbn [String.length Nat.eqb]. rewrite Hn.
    unfold Duration_mul, Millisecond. rewrite wrap64_small.
    + lia.
    + unfold int64_min, int64_max. lia.
  - intros ext env g u -> Hne Hp. now apply FromEnvironment_parsed.
Qed.

Lemma env_timeout_milliseconds_witness :
  env_timeout_duration "500" = (500 * Millisecond)%Z.
Proof.
  apply (env_timeout_milliseconds "500"); [reflexivity | lia].
Defined.

(** C6 as stated, without the bound, fails: [Atoi] accepts
    9223372036855, and so many milliseconds overflow the 64-bit count
    of nanoseconds; the duration comes out negative. *)
Lemma env_timeout_overflow :
  Atoi "9223372036855" = inl 9223372036855%Z /\
  env_timeout_duration "9223372036855" = (-9223372036854551616)%Z /\
  env_timeout_duration "9223372036855" <> (9223372036855 * Millisecond)%Z.
Proof.
  split; [reflexivity|]. split; [reflexivity|].
  vm_compute. discriminate.
Qed.

(** ** The tunnel: deadlines *)

Lemma conn_Close_closed (c : net_Conn) : closed (snd (conn_Close c)) = true.
Proof. unfold conn_Close. destruct (closed c) eqn:E; simpl; congruence. Qed.

Lemma conn_Close_outbound (c : net_Conn) : outbound (snd (conn_Close c)) = outbound c.
Proof. unfold conn_Close. destruct (closed c); reflexivity. Qed.

Ltac close_leg c :=
  let e := fresh "e" in
  let c' := fresh "c" in
  let E := fresh "E" in
  pose proof (conn_Close_closed c); pose proof (conn_Close_outbound c);
  destruct (conn_Close c) as [e c'] eqn:E; cbn [snd] in *.

Lemma Dial_deadline_failure (rt : Runtime) (s : httpProxy) (net address : string)
    (conn : net_Conn) (err : error) :
  is_nil (forward s) = false ->
  rt_dial rt (forward s) (network s) (dialAddr s) = (Some conn, None) ->
  first_deadline_failure conn = Some err ->
  exists leg,
    Dial rt s net address = Returned None (Some err) (Some leg) /\
    closed leg = true /\
    outbound leg = outbound conn.
Proof.
  intros Hf Hd Hfail. unfold Dial. rewrite Hf, Hd.
  unfold first_deadline_failure in Hfail.
  unfold conn_SetDeadline, conn_SetReadDeadline, conn_SetWriteDeadline.
  destruct (failSetDeadline conn) as [e0|] eqn:E0.
  { injection Hfail as <-. close_leg conn. eauto. }
  cbn [failSetReadDeadline with_deadlines].
  destruct (failSetReadDeadline conn) as [e1|] eqn:E1.
  { injection Hfail as <-.
    close_leg (with_deadlines conn (Some (Time_Add (rt_now rt 0) (timeout s)))
                                   (Some (Time_Add (rt_now rt 0) (timeout s)))).
    eauto. }
  cbn [failSetWriteDeadline with_deadlines]. rewrite Hfail.
  match goal with |- context [conn_Close ?c] => close_leg c end.
  eauto.
Qed.

(** C7: when the connection rejects one of the three deadline setters,
    [Dial] closes it, returns no connection and returns the error of
    the setter; nothing has been written to the connection. *)
Theorem deadline_failure_closes (rt : Runtime) (s : httpProxy) (net address : string)
    (conn : net_Conn) (err : error) :
  is_nil (forward s) = false ->
  rt_dial rt (forward s) (network s) (dialAddr s) = (Some conn, None) ->
  first_deadline_failure conn = Some err ->
  exists leg,
    Dial rt s net address = Returned None (Some err) (Some leg) /\
    closed leg = true /\
    outbound leg = outbound conn.
Proof. apply Dial_deadline_failure. Qed.

Lemma deadline_failure_closes_witness :
  exists leg,
    Dial (mkRuntime
            (fun _ _ _ =>
               (Some (mkConn [] [] false None None None
                             (Some (OpError "set" "deadline not supported")) None None None),
                None))
            (fun k => Z.of_nat k) (fun _ => inl []) (fun _ => None))
         (mkHTTPProxy "" "" "tcp" "proxy:8080" Direct 5%Z) "tcp" "example.com:443"
    = Returned None (Some (OpError "set" "deadline not supported")) (Some leg) /\
    closed leg = true /\
    outbound leg = [].
Proof.
  apply (deadline_failure_closes
           (mkRuntime
              (fun _ _ _ =>
                 (Some (mkConn [] [] false None None None
                               (Some (OpError "set" "deadline not supported")) None None None),
                  None))
              (fun k => Z.of_nat k) (fun _ => inl []) (fun _ => None))
           (mkHTTPProxy "" "" "tcp" "proxy:8080" Direct 5%Z) "tcp" "example.com:443"
           (mkConn [] [] false None None None
                   (Some (OpError "set" "deadline not supported")) None None None)
           (OpError "set" "deadline not supported"));
    reflexivity.
Defined.

(** [Dial] once the deadlines are set. *)
Lemma Dial_armed (rt : Runtime) (s : httpProxy) (net address : string) (conn : net_Conn) :
  is_nil (forward s) = false ->
  rt_dial rt (forward s) (network s) (dialAddr s) = (Some conn, None) ->
  first_deadline_failure conn = None ->
  Dial rt s net address
  = match connect rt s (armed rt s conn) address with
    | (v, Some err) =>
        let '(_, v) := connValue_Close v in Returned None (Some err) (Some (raw_of v))
    | (v, None) => Returned (Some v) None (Some (raw_of v))
    end.
Proof.
  intros Hf Hd Hfail. unfold Dial. rewrite Hf, Hd.
  unfold first_deadline_failure in Hfail.
  unfold conn_SetDeadline, conn_SetReadDeadline, conn_SetWriteDeadline.
  destruct (failSetDeadline conn) eqn:E0; [discriminate|].
  cbn [failSetReadDeadline with_deadlines].
  destruct (failSetReadDeadline conn) eqn:E1; [discriminate|].
  cbn [failSetWriteDeadline with_deadlines]. rewrite Hfail.
  cbn [readDeadline with_deadlines inbound outbound closed writeDeadline
       failSetDeadline failSetReadDeadline failSetWriteDeadline failWrite failClose].
  unfold armed, with_deadlines. rewrite E0, E1, Hfail.
  reflexivity.
Qed.

(** ** Reading changes nothing but the queue of deliveries *)

Lemma defaultBufSize_ge_2 : 2 <= defaultBufSize.
Proof. unfold defaultBufSize. lia. Qed.

#[local] Opaque defaultBufSize.

Create HintDb tunnel.

Lemma with_inbound_same (c : net_Conn) : with_inbound c (inbound c) = c.
Proof. destruct c; reflexivity. Qed.

Lemma with_inbound_twice (c : net_Conn) (i j : list (list byte)) :
  with_inbound (with_inbound c i) j = with_inbound c j.
Proof. reflexivity. Qed.

Lemma read_from_refl (c : net_Conn) : read_from c c.
Proof. unfold read_from. now rewrite with_inbound_same. Qed.

Lemma read_from_trans (a b c : net_Conn) : read_from a b -> read_from b c -> read_from a c.
Proof. unfold read_from. intros Hab Hbc. rewrite Hbc at 1. rewrite Hab. reflexivity. Qed.

Lemma read_from_closed (c c' : net_Conn) : read_from c c' -> closed c' = closed c.
Proof. unfold read_from. intros ->. reflexivity. Qed.

#[local] Hint Resolve read_from_refl read_from_trans : tunnel.

Lemma conn_Read_read_from (n : nat) (c : net_Conn) bs e c' :
  conn_Read n c = (bs, e, c') -> read_from c c'.
Proof.
  unfold conn_Read. intros H.
  destruct (closed c); [injection H as <- <- <-; auto with tunnel|].
  destruct (n =? 0); [injection H as <- <- <-; auto with tunnel|].
  destruct (inbound c) as [|seg rest]; [injection H as <- <- <-; auto with tunnel|].
  destruct (length seg <=? n); injection H as <- <- <-; reflexivity.
Qed.

Lemma fill_loop_read_from (i : nat) (r : Reader) (c : net_Conn) r' c' :
  fill_loop i r c = (r', c') -> read_from c c'.
Proof.
  revert r c. induction i as [|i IH]; intros r c H; simpl in H.
  - injection H as <- <-. auto with tunnel.
  - destruct (conn_Read (defaultBufSize - length (rbuf r)) c) as [[bs e] c1] eqn:E.
    apply conn_Read_read_from in E.
    destruct e as [e|]; [injection H as <- <-; exact E|].
    destruct bs; [|injection H as <- <-; exact E].
    apply IH in H. eauto with tunnel.
Qed.

Lemma readLineSlice_read_from (fuel : nat) acc (r : Reader) (c : net_Conn) res r' c' :
  readLineSlice fuel acc r c = (res, r', c') -> read_from c c'.
Proof.
  revert acc r c. induction fuel as [|fuel IH]; intros acc r c H; simpl in H.
  - injection H as <- <- <-. auto with tunnel.
  - destruct (cut_line (rbuf r)) as [[l rest]|].
    { injection H as <- <- <-. auto with tunnel. }
    destruct (rerr r).
    { destruct (rbuf r); injection H as <- <- <-; auto with tunnel. }
    destruct (defaultBufSize <=? length (rbuf r)).
    + destruct (split_full (rbuf r)) as [piece keep]. eapply IH, H.
    + destruct (fill r c) as [r1 c1] eqn:E. apply fill_loop_read_from in E.
      apply IH in H. eauto with tunnel.
Qed.

Lemma ReadLine_read_from (r : Reader) (c : net_Conn) res r' c' :
  ReadLine r c = (res, r', c') -> read_from c c'.
Proof.
  unfold ReadLine. intros H.
  destruct (readLineSlice (line_fuel r c) [] r c) as [[res0 r0] c0] eqn:E.
  apply readLineSlice_read_from in E.
  destruct res0; injection H as <- <- <-; exact E.
Qed.

Lemma readHeaderLines_read_from (fuel : nat) h (r : Reader) (c : net_Conn) res r' c' :
  readHeaderLines fuel h r c = (res, r', c') -> read_from c c'.
Proof.
  revert h r c. induction fuel as [|fuel IH]; intros h r c H; simpl in H.
  - injection H as <- <- <-. auto with tunnel.
  - destruct (ReadLine r c) as [[res0 r0] c0] eqn:E. apply ReadLine_read_from in E.
    destruct res0 as [line|e]; [|injection H as <- <- <-; exact E].
    destruct line as [|ch line]; [injection H as <- <- <-; exact E|].
    apply IH in H. eauto with tunnel.
Qed.

Lemma ReadResponse_read_from checks (r : Reader) (c : net_Conn) res r' c' :
  ReadResponse checks r c = (res, r', c') -> read_from c c'.
Proof.
  unfold ReadResponse. intros H.
  destruct (ReadLine r c) as [[res0 r0] c0] eqn:E. apply ReadLine_read_from in E.
  destruct res0 as [line|e]; [|injection H as <- <- <-; exact E].
  destruct (parse_status_line line) as [[[proto status] code]|e];
    [|injection H as <- <- <-; exact E].
  destruct (readHeaderLines (header_fuel r0 c0) [] r0 c0) as [[res1 r1] c1] eqn:E1.
  apply readHeaderLines_read_from in E1.
  destruct res1 as [[|l h]|e]; [| destruct (checks _) |];
    injection H as <- <- <-; eauto with tunnel.
Qed.

(** ** The tunnel: rejection *)

Lemma Request_Write_ok (rt : Runtime) (target : string) (c c' : net_Conn) :
  Request_Write rt target c = (None, c') ->
  closed c = false /\ inbound c' = inbound c /\ closed c' = false.
Proof.
  unfold Request_Write, conn_Write. intros H.
  destruct (rt_request rt target); [|discriminate].
  destruct (closed c) eqn:E; [discriminate|].
  destruct (failWrite c); [discriminate|].
  injection H as <-. simpl. auto.
Qed.

(** C1, as the code has it: when the proxy's answer is one that
    [http.ReadResponse] returns as a response, and its status code is
    other than 200, [connect] hands the connection back as it is, not
    closed, together with an error that carries the status text;
    [Dial] then closes the connection and returns that error and no
    connection.  An answer that [http.ReadResponse] refuses is no
    response: its error is the one of the library. *)
Theorem rejected_tunnel_is_closed (rt : Runtime) (s : httpProxy) (net address : string)
    (conn written after : net_Conn) (resp : Response) (br : Reader) :
  is_nil (forward s) = false ->
  rt_dial rt (forward s) (network s) (dialAddr s) = (Some conn, None) ->
  first_deadline_failure conn = None ->
  Request_Write rt address (armed rt s conn) = (None, written) ->
  ReadResponse (rt_checks rt) NewReader written = (inl resp, br, after) ->
  StatusCode resp <> 200%Z ->
  connect rt s (armed rt s conn) address
  = (plainConn after,
     Some (errorString ("unable to proxy connection: " +:+ Status resp))) /\
  closed after = false /\
  Dial rt s net address
  = Returned None (Some (errorString ("unable to proxy connection: " +:+ Status resp)))
             (Some (with_closed after true)).
Proof.
  intros Hf Hd Hdl Hw Hr Hs.
  assert (Hc : connect rt s (armed rt s conn) address
               = (plainConn after,
                  Some (errorString ("unable to proxy connection: " +:+ Status resp)))).
  { unfold connect. rewrite Hw, Hr.
    destruct (Z.eqb_spec (StatusCode resp) 200); [contradiction|reflexivity]. }
  assert (Ho : closed after = false).
  { apply Request_Write_ok in Hw as (_ & _ & Hw).
    apply ReadResponse_read_from, read_from_closed in Hr. congruence. }
  repeat split; [exact Hc | exact Ho |].
  rewrite (Dial_armed rt s net address conn Hf Hd Hdl), Hc.
  unfold connValue_Close, conn_Close. rewrite Ho. reflexivity.
Qed.

(** ** Lines *)

Lemma byte_eqb_spec (x y : byte) : reflect (x = y) (Byte.eqb x y).
Proof.
  destruct (Byte.eqb x y) eqn:E; constructor.
  - now apply Byte.byte_dec_bl.
  - now apply Byte.eqb_false.
Qed.

Lemma chomp_LF : chomp [LF] = [].
Proof. reflexivity. Qed.

Lemma chomp_CR_LF (x : list byte) : chomp (wire (x ++ [CR])) = x.
Proof.
  unfold chomp, wire. rewrite !rev_app_distr. simpl.
  apply rev_involutive.
Qed.

Lemma chomp_other_LF (x : list byte) (a : byte) :
  a <> CR -> chomp (wire (x ++ [a])) = x ++ [a].
Proof.
  intros Ha. unfold chomp, wire. rewrite !rev_app_distr. simpl.
  destruct (byte_eqb_spec a CR); [contradiction|].
  simpl. now rewrite rev_involutive.
Qed.

Lemma chomp_app (p l : list byte) :
  l <> [] -> chomp (wire (p ++ l)) = p ++ chomp (wire l).
Proof.
  intros Hl. destruct l as [|a l0 _] using rev_ind; [contradiction|].
  rewrite app_assoc.
  destruct (byte_eqb_spec a CR) as [->|Ha].
  - now rewrite !chomp_CR_LF.
  - rewrite !chomp_other_LF by assumption. now rewrite app_assoc.
Qed.

Lemma split_full_spec (b piece keep : list byte) :
  split_full b = (piece, keep) ->
  b = piece ++ keep /\ length keep <= 1 /\ (keep = [] -> chomp (wire piece) = piece).
Proof.
  unfold split_full.
  destruct b as [|a b0 _] using rev_ind.
  - simpl. intros [= <- <-]. repeat split; auto.
  - rewrite rev_app_distr. simpl.
    destruct (byte_eqb_spec a CR) as [->|Ha]; intros [= <- <-].
    + rewrite rev_involutive. repeat split; [simpl; lia | discriminate].
    + rewrite app_nil_r. repeat split; [simpl; lia|].
      intros _. now apply chomp_other_LF.
Qed.

Lemma cut_line_stream (b u l rest : list byte) :
  b ++ u = l ++ LF :: rest -> no_LF l ->
  match cut_line b with
  | Some (l0, rest0) => l0 = wire l /\ rest0 ++ u = rest
  | None => exists l2, l = b ++ l2 /\ u = l2 ++ LF :: rest
  end.
Proof.
  revert l. induction b as [|x b IH]; intros l H Hl; simpl.
  - exists l. auto.
  - destruct l as [|y l]; simpl in H; injection H as -> H.
    + destruct (byte_eqb_spec LF LF); [|contradiction]. auto.
    + apply Forall_cons_iff in Hl as [Hy Hl].
      destruct (byte_eqb_spec y LF); [contradiction|].
      specialize (IH l H Hl).
      destruct (cut_line b) as [[l0 rest0]|].
      * destruct IH as [-> IH]. auto.
      * destruct IH as (l2 & -> & ->). eauto.
Qed.

(** ** Live connections *)

Lemma conn_Read_stream (n : nat) (c : net_Conn) bs e c' :
  conn_Read n c = (bs, e, c') -> bs ++ unread c' = unread c.
Proof.
  unfold conn_Read, unread. intros H.
  destruct (closed c); [injection H as <- <- <-; reflexivity|].
  destruct (n =? 0); [injection H as <- <- <-; reflexivity|].
  destruct (inbound c) as [|seg rest] eqn:Ei;
    [injection H as <- <- <-; now rewrite Ei|].
  destruct (length seg <=? n); injection H as <- <- <-; simpl; [reflexivity|].
  now rewrite app_assoc, firstn_skipn.
Qed.

Lemma conn_Read_live (n : nat) (c : net_Conn) bs e c' :
  live c -> conn_Read n c = (bs, e, c') -> live c'.
Proof.
  unfold conn_Read, live. intros [Hc Hs] H. rewrite Hc in H.
  destruct (n =? 0); [injection H as <- <- <-; auto|].
  destruct (inbound c) as [|seg rest] eqn:Ei; [injection H as <- <- <-; rewrite Ei; auto|].
  apply Forall_cons_iff in Hs as [Hseg Hrest].
  destruct (Nat.leb_spec (length seg) n); injection H as <- <- <-; simpl; split; auto.
  constructor; [|assumption].
  intros E. apply (f_equal (@length byte)) in E. rewrite length_skipn in E. simpl in E. lia.
Qed.

Lemma conn_Read_progress (n : nat) (c : net_Conn) bs e c' :
  live c -> unread c <> [] -> 0 < n ->
  conn_Read n c = (bs, e, c') -> e = None /\ bs <> [].
Proof.
  unfold conn_Read, live, unread. intros [Hc Hs] Hu Hn H. rewrite Hc in H.
  destruct (Nat.eqb_spec n 0); [lia|].
  destruct (inbound c) as [|seg rest]; [contradiction|].
  apply Forall_cons_iff in Hs as [Hseg Hrest].
  destruct (Nat.leb_spec (length seg) n); injection H as <- <- <-; split; auto.
  intros E. apply (f_equal (@length byte)) in E. rewrite length_firstn in E. simpl in E.
  destruct seg; [contradiction | simpl in *; lia].
Qed.

Lemma fill_loop_progress (i : nat) (r : Reader) (c : net_Conn) r' c' :
  live c -> unread c <> [] -> length (rbuf r) < defaultBufSize ->
  fill_loop (S i) r c = (r', c') ->
  exists bs, bs <> [] /\ rbuf r' = rbuf r ++ bs /\ rerr r' = rerr r /\
             bs ++ unread c' = unread c /\ live c' /\ read_from c c'.
Proof.
  intros Hl Hu Hb H. simpl in H.
  destruct (conn_Read (defaultBufSize - length (rbuf r)) c) as [[bs e] c1] eqn:E.
  assert (Hn : 0 < defaultBufSize - length (rbuf r)) by lia.
  pose proof (conn_Read_progress _ _ _ _ _ Hl Hu Hn E) as [-> Hbs].
  destruct bs as [|b bs]; [contradiction|].
  injection H as <- <-. exists (b :: bs). simpl.
  split; [discriminate|]. split; [reflexivity|]. split; [reflexivity|].
  split; [apply (conn_Read_stream _ _ _ _ _ E)|].
  split; [apply (conn_Read_live _ _ _ _ _ Hl E) | apply (conn_Read_read_from _ _ _ _ _ E)].
Qed.

Lemma fill_progress (r : Reader) (c : net_Conn) r' c' :
  live c -> unread c <> [] -> length (rbuf r) < defaultBufSize ->
  fill r c = (r', c') ->
  exists bs, bs <> [] /\ rbuf r' = rbuf r ++ bs /\ rerr r' = rerr r /\
             bs ++ unread c' = unread c /\ live c' /\ read_from c c'.
Proof. unfold fill. apply (fill_loop_progress 99). Qed.

Lemma readLineSlice_S (fuel : nat) acc (r : Reader) (c : net_Conn) :
  readLineSlice (S fuel) acc r c
  = match cut_line (rbuf r) with
    | Some (l, rest) => (inl (acc ++ chomp l), mkReader rest (rerr r), c)
    | None =>
        match rerr r with
        | Some e =>
            match rbuf r with
            | [] => (inr e, mkReader [] None, c)
            | _ => (inl (acc ++ rbuf r), mkReader [] None, c)
            end
        | None =>
            if defaultBufSize <=? length (rbuf r) then
              let '(piece, keep) := split_full (rbuf r) in
              readLineSlice fuel (acc ++ piece) (mkReader keep None) c
            else
              let '(r', c') := fill r c in
              readLineSlice fuel acc r' c'
        end
    end.
Proof. reflexivity. Qed.

(** With a whole line ahead, on the reader and the connection taken
    together, the line reader returns that line without its ending and
    leaves exactly what follows the line. *)
Lemma readLineSlice_line (fuel : nat) :
  forall acc (r : Reader) (c : net_Conn) (l rest : list byte),
    live c -> rerr r = None ->
    rbuf r ++ unread c = l ++ LF :: rest -> no_LF l ->
    2 * length (unread c) + length (rbuf r) < fuel ->
    exists r' c',
      readLineSlice fuel acc r c = (inl (acc ++ chomp (wire l)), r', c') /\
      rerr r' = None /\ rbuf r' ++ unread c' = rest /\ live c' /\ read_from c c'.
Proof.
  induction fuel as [|fuel IH]; intros acc r c l rest Hlive Herr Hs Hl Hfuel; [lia|].
  rewrite readLineSlice_S.
  pose proof (cut_line_stream _ _ _ _ Hs Hl) as Hcut.
  destruct (cut_line (rbuf r)) as [[l0 rest0]|].
  { destruct Hcut as [-> Hrest].
    exists (mkReader rest0 (rerr r)), c. simpl. auto with tunnel. }
  destruct Hcut as (l2 & Hl2 & Hu). rewrite Herr.
  destruct (Nat.leb_spec defaultBufSize (length (rbuf r))) as [Hfull|Hroom].
  - destruct (split_full (rbuf r)) as [piece keep] eqn:Es.
    apply split_full_spec in Es as (Hb & Hk & Hch).
    pose proof defaultBufSize_ge_2.
    destruct (IH (acc ++ piece) (mkReader keep None) c (keep ++ l2) rest) as (r' & c' & Hr & Hpost);
      simpl; auto.
    + rewrite Hu. now rewrite <- app_assoc.
    + unfold no_LF in *. rewrite Hl2, Hb, <- app_assoc in Hl.
      now apply Forall_app in Hl as [_ Hl].
    + lia.
    + assert (Hline : (acc ++ piece) ++ chomp (wire (keep ++ l2)) = acc ++ chomp (wire l)).
      { rewrite <- app_assoc. f_equal.
        rewrite Hl2, Hb, <- app_assoc.
        destruct (keep ++ l2) as [|x t] eqn:Ek.
        - apply app_eq_nil in Ek as [Ek _]. rewrite !app_nil_r.
          rewrite (Hch Ek). reflexivity.
        - symmetry. apply chomp_app. discriminate. }
      exists r', c'. split; [|exact Hpost]. rewrite Hr, Hline. reflexivity.
  - destruct (fill r c) as [r1 c1] eqn:Ef.
    assert (Hne : unread c <> []) by (rewrite Hu; now destruct l2).
    destruct (fill_progress _ _ _ _ Hlive Hne Hroom Ef)
      as (bs & Hbs & Hb1 & He1 & Hs1 & Hlive1 & Hfrom1).
    destruct (IH acc r1 c1 l rest) as (r' & c' & Hr & He' & Hs' & Hl' & Hf'); auto.
    + congruence.
    + rewrite Hb1, <- app_assoc, Hs1. exact Hs.
    + rewrite Hb1, length_app. rewrite <- Hs1, length_app in Hfuel.
      destruct bs; [contradiction|]. simpl in *. lia.
    + exists r', c'. eauto 6 with tunnel.
Qed.

Lemma ReadLine_line (r : Reader) (c : net_Conn) (l rest : list byte) :
  live c -> rerr r = None ->
  rbuf r ++ unread c = l ++ LF :: rest -> no_LF l ->
  exists r' c',
    ReadLine r c = (inl (string_of_list_byte (chomp (wire l))), r', c') /\
    rerr r' = None /\ rbuf r' ++ unread c' = rest /\ live c' /\ read_from c c'.
Proof.
  intros Hlive Herr Hs Hl.
  destruct (readLineSlice_line (line_fuel r c) [] r c l rest Hlive Herr Hs Hl)
    as (r' & c' & Hr & Hpost).
  { unfold line_fuel. lia. }
  exists r', c'. split; [|exact Hpost].
  unfold ReadLine. rewrite Hr. reflexivity.
Qed.

(** ** The head of the answer *)

Lemma no_LFb_spec (l : list byte) : no_LFb l = true -> no_LF l.
Proof.
  unfold no_LFb, no_LF. rewrite forallb_forall, List.Forall_forall.
  intros H x Hx. specialize (H x Hx).
  destruct (byte_eqb_spec x LF); [discriminate | assumption].
Qed.

Lemma string_of_list_byte_empty (x : list byte) :
  string_of_list_byte x = EmptyString -> x = [].
Proof. destruct x; [reflexivity | discriminate]. Qed.

Lemma length_concat_wire (ls : list (list byte)) :
  length ls <= length (concat (map wire ls)).
Proof.
  induction ls as [|l ls IH]; simpl; [lia|].
  unfold wire at 1. rewrite !length_app. simpl. lia.
Qed.

Lemma readHeaderLines_S (fuel : nat) h (r : Reader) (c : net_Conn) :
  readHeaderLines (S fuel) h r c
  = match ReadLine r c with
    | (inr e, r', c') => (inr e, r', c')
    | (inl line, r', c') =>
        match line with
        | EmptyString => (inl h, r', c')
        | _ => readHeaderLines fuel (h ++ [line]) r' c'
        end
    end.
Proof. reflexivity. Qed.

(** When the header is read without error, the reader and the
    connection are left with exactly what follows its empty line. *)
Lemma readHeaderLines_head (hdrs : list (list byte)) :
  forall fuel h (r : Reader) (c : net_Conn) (blank payload : list byte) h' r' c',
    live c -> rerr r = None ->
    rbuf r ++ unread c = concat (map wire hdrs) ++ wire blank ++ payload ->
    forallb (fun l => no_LFb l && negb (empty_line l)) hdrs = true ->
    no_LFb blank = true -> empty_line blank = true ->
    length hdrs < fuel ->
    readHeaderLines fuel h r c = (inl h', r', c') ->
    rerr r' = None /\ rbuf r' ++ unread c' = payload /\ live c' /\ read_from c c'.
Proof.
  induction hdrs as [|l hdrs IH];
    intros fuel h r c blank payload h' r' c' Hlive Herr Hs Hh Hb He Hfuel H;
    (destruct fuel as [|fuel]; [simpl in Hfuel; lia|]);
    rewrite readHeaderLines_S in H.
  - simpl in Hs. unfold wire in Hs. rewrite <- app_assoc in Hs. simpl in Hs.
    destruct (ReadLine_line r c blank payload Hlive Herr Hs (no_LFb_spec _ Hb))
      as (r1 & c1 & Hr & Hpost).
    rewrite Hr in H. unfold empty_line in He.
    destruct (chomp (wire blank)); [|discriminate].
    simpl in H. injection H as <- <- <-. exact Hpost.
  - simpl in Hs, Hh. apply andb_prop in Hh as [Hl Hh]. apply andb_prop in Hl as [Hl Hne].
    unfold wire at 1 in Hs. rewrite <- !app_assoc in Hs. simpl in Hs.
    destruct (ReadLine_line r c l _ Hlive Herr Hs (no_LFb_spec _ Hl))
      as (r1 & c1 & Hr & Herr1 & Hs1 & Hlive1 & Hfrom1).
    rewrite Hr in H.
    destruct (string_of_list_byte (chomp (wire l))) as [|ch line] eqn:El.
    { apply string_of_list_byte_empty in El. unfold empty_line in Hne.
      rewrite El in Hne. discriminate. }
    assert (Hfuel' : length hdrs < fuel) by (simpl in Hfuel; lia).
    destruct (IH fuel _ r1 c1 blank payload h' r' c' Hlive1 Herr1 Hs1 Hh Hb He Hfuel' H)
      as (A & B & C & D).
    eauto 6 with tunnel.
Qed.

(** When the answer is read without error, the reader and the
    connection are left with exactly what follows the head, and the
    response carries what the status line says. *)
Lemma ReadResponse_head (status : list byte) (hdrs : list (list byte)) (blank payload : list byte)
    checks (r : Reader) (c : net_Conn) (resp : Response) r' c' :
  live c -> rerr r = None ->
  rbuf r ++ unread c = response_head status hdrs blank ++ payload ->
  head_ok status hdrs blank = true ->
  ReadResponse checks r c = (inl resp, r', c') ->
  rerr r' = None /\ rbuf r' ++ unread c' = payload /\ live c' /\ read_from c c' /\
  parse_status_line (string_of_list_byte (chomp (wire status)))
  = inl (Proto resp, Status resp, StatusCode resp).
Proof.
  unfold response_head, head_ok. intros Hlive Herr Hs Hok H.
  apply andb_prop in Hok as [Hok He]. apply andb_prop in Hok as [Hok Hb].
  simpl in Hok. apply andb_prop in Hok as [Hst Hh]. apply andb_prop in Hst as [Hst _].
  simpl in Hs. unfold wire at 1 in Hs. rewrite <- !app_assoc in Hs. simpl in Hs.
  destruct (ReadLine_line r c status _ Hlive Herr Hs (no_LFb_spec _ Hst))
    as (r1 & c1 & Hr & Herr1 & Hs1 & Hlive1 & Hfrom1).
  unfold ReadResponse in H. rewrite Hr in H.
  destruct (parse_status_line (string_of_list_byte (chomp (wire status))))
    as [[[proto st] code]|e]; [|discriminate].
  destruct (readHeaderLines (header_fuel r1 c1) [] r1 c1) as [[[h1|e1] r2] c2] eqn:Eh;
    [|discriminate].
  assert (Hfuel : length hdrs < header_fuel r1 c1).
  { unfold header_fuel. rewrite <- length_app, Hs1, length_app.
    pose proof (length_concat_wire hdrs). lia. }
  destruct (readHeaderLines_head hdrs _ _ _ _ blank payload _ _ _
              Hlive1 Herr1 Hs1 Hh Hb He Hfuel Eh) as (A & B & C & D).
  destruct h1 as [|l1 h1]; [|destruct (checks _); [discriminate|]];
    injection H as <- <- <-; simpl; eauto 6 with tunnel.
Qed.

(** ** Reading from the tunnel *)

Lemma bufferedConn_Read_buffered (n : nat) (bc : bufferedConn) :
  rbuf (reader bc) <> [] ->
  bufferedConn_Read n bc
  = (firstn n (rbuf (reader bc)), None,
     mkBufferedConn (Conn bc) (mkReader (skipn n (rbuf (reader bc))) (rerr (reader bc)))).
Proof.
  unfold bufferedConn_Read, Reader_Read, Buffered. intros Hb.
  destruct bc as [c [b e]]. simpl in *.
  destruct b as [|x b]; [contradiction|]. simpl.
  destruct n; reflexivity.
Qed.

Lemma bufferedConn_Read_drained (n : nat) (bc : bufferedConn) :
  rbuf (reader bc) = [] ->
  bufferedConn_Read n bc
  = (let '(bs, e, c') := conn_Read n (Conn bc) in (bs, e, mkBufferedConn c' (reader bc))).
Proof.
  unfold bufferedConn_Read, Buffered. intros ->. reflexivity.
Qed.

Lemma bufferedConn_Read_stream (n : nat) (bc : bufferedConn) bs e bc' :
  bufferedConn_Read n bc = (bs, e, bc') ->
  bs ++ pending bc' = pending bc /\ (live (Conn bc) -> live (Conn bc')).
Proof.
  intros H. unfold pending.
  destruct (rbuf (reader bc)) as [|x b] eqn:Eb.
  - rewrite (bufferedConn_Read_drained n bc Eb) in H.
    destruct (conn_Read n (Conn bc)) as [[bs0 e0] c0] eqn:E.
    injection H as <- <- <-. simpl. rewrite Eb. simpl.
    split; [eapply conn_Read_stream, E | intros Hl; eapply conn_Read_live, E; exact Hl].
  - rewrite bufferedConn_Read_buffered in H by (rewrite Eb; discriminate).
    injection H as <- <- <-. simpl. rewrite Eb.
    split; [|auto]. now rewrite app_assoc, firstn_skipn.
Qed.

Lemma bufferedConn_Read_progress (n : nat) (bc : bufferedConn) bs e bc' :
  live (Conn bc) -> pending bc <> [] -> 0 < n ->
  bufferedConn_Read n bc = (bs, e, bc') -> bs <> [].
Proof.
  intros Hl Hp Hn H. unfold pending in Hp.
  destruct (rbuf (reader bc)) as [|x b] eqn:Eb.
  - rewrite (bufferedConn_Read_drained n bc Eb) in H.
    destruct (conn_Read n (Conn bc)) as [[bs0 e0] c0] eqn:E.
    injection H as <- <- <-.
    now destruct (conn_Read_progress _ _ _ _ _ Hl Hp Hn E).
  - rewrite bufferedConn_Read_buffered in H by (rewrite Eb; discriminate).
    injection H as <- <- <-. rewrite Eb. destruct n; [lia | discriminate].
Qed.

Lemma read_all_cons (n : nat) (ns : list nat) (bc : bufferedConn) :
  read_all (n :: ns) bc
  = (let '(bs, _, bc') := bufferedConn_Read n bc in
     let '(rest, bc'') := read_all ns bc' in (bs :: rest, bc'')).
Proof. reflexivity. Qed.

(** Reads hand out the pending bytes in order, each once. *)
Lemma read_all_stream (ns : list nat) :
  forall bc, concat (fst (read_all ns bc)) ++ pending (snd (read_all ns bc)) = pending bc.
Proof.
  induction ns as [|n ns IH]; intros bc; [reflexivity|].
  rewrite read_all_cons.
  destruct (bufferedConn_Read n bc) as [[bs e] bc1] eqn:E.
  specialize (IH bc1). destruct (read_all ns bc1) as [rest bc2]. simpl in *.
  apply bufferedConn_Read_stream in E as [E _].
  now rewrite <- app_assoc, IH.
Qed.

(** As many reads with room for a byte as there are bytes pending
    hand them all out. *)
Lemma read_all_drains (ns : list nat) :
  forall bc,
    live (Conn bc) -> Forall (fun n => 0 < n) ns ->
    length (pending bc) <= length ns ->
    pending (snd (read_all ns bc)) = [].
Proof.
  induction ns as [|n ns IH]; intros bc Hl Hns Hlen.
  - simpl in *. destruct (pending bc); [reflexivity | simpl in Hlen; lia].
  - apply Forall_cons_iff in Hns as [Hn Hns].
    rewrite read_all_cons.
    destruct (bufferedConn_Read n bc) as [[bs e] bc1] eqn:E.
    pose proof (bufferedConn_Read_stream _ _ _ _ _ E) as [Hs Hl1].
    assert (Hlen1 : length (pending bc1) <= length ns).
    { destruct (pending bc) as [|x p] eqn:Ep.
      - apply app_eq_nil in Hs as [_ ->]. simpl. lia.
      - assert (Hbs : bs <> []).
        { eapply bufferedConn_Read_progress; eauto. rewrite Ep. discriminate. }
        apply (f_equal (@length byte)) in Hs. rewrite length_app in Hs.
        destruct bs; [contradiction|]. simpl in *. lia. }
    specialize (IH bc1 (Hl1 Hl) Hns Hlen1).
    destruct (read_all ns bc1) as [rest bc2]. exact IH.
Qed.

(** ** Fuel *)

Lemma fill_loop_spec (i : nat) :
  forall (r : Reader) (c : net_Conn) r' c',
    fill_loop i r c = (r', c') ->
    exists bs,
      rbuf r' = rbuf r ++ bs /\ bs ++ unread c' = unread c /\
      ((rerr r' = rerr r /\ bs <> []) \/ rerr r' <> None).
Proof.
  induction i as [|i IH]; intros r c r' c' H; simpl in H.
  - injection H as <- <-. exists []. simpl. rewrite app_nil_r.
    split; [reflexivity|]. split; [reflexivity|]. right. discriminate.
  - destruct (conn_Read (defaultBufSize - length (rbuf r)) c) as [[bs e] c1] eqn:E.
    pose proof (conn_Read_stream _ _ _ _ _ E) as Hs.
    destruct e as [e|].
    { injection H as <- <-. exists bs. simpl.
      split; [reflexivity|]. split; [exact Hs|]. right. discriminate. }
    destruct bs as [|b bs].
    + destruct (IH r c1 r' c' H) as (bs' & A & B & C). exists bs'.
      simpl in Hs. rewrite <- Hs. auto.
    + injection H as <- <-. exists (b :: bs). simpl.
      split; [reflexivity|]. split; [exact Hs|].
      left. split; [reflexivity | discriminate].
Qed.

(** The result of the line reader does not depend on the fuel, from
    [line_measure] on: the fuel that [ReadLine] provides never runs
    out. *)
Lemma readLineSlice_fuel (fuel : nat) :
  forall fuel' acc (r : Reader) (c : net_Conn),
    line_measure r c <= fuel -> line_measure r c <= fuel' ->
    readLineSlice fuel acc r c = readLineSlice fuel' acc r c.
Proof.
  induction fuel as [|fuel IH]; intros fuel' acc r c H H'.
  { unfold line_measure in H. destruct (rerr r); lia. }
  destruct fuel' as [|fuel']; [unfold line_measure in H'; destruct (rerr r); lia|].
  rewrite !readLineSlice_S.
  destruct (cut_line (rbuf r)) as [[l rest]|]; [reflexivity|].
  destruct (rerr r) eqn:Herr; [reflexivity|].
  unfold line_measure in H, H'. rewrite Herr in H, H'.
  destruct (Nat.leb_spec defaultBufSize (length (rbuf r))) as [Hfull|Hroom].
  - destruct (split_full (rbuf r)) as [piece keep] eqn:Es.
    apply split_full_spec in Es as (_ & Hk & _).
    pose proof defaultBufSize_ge_2.
    apply IH; unfold line_measure; simpl; lia.
  - destruct (fill r c) as [r1 c1] eqn:Ef.
    destruct (fill_loop_spec _ _ _ _ _ Ef) as (bs & Hb & Hs & Hp).
    assert (Hm : line_measure r1 c1 <= 2 * length (unread c) + length (rbuf r) + 1).
    { unfold line_measure. rewrite Hb, <- Hs, !length_app.
      destruct Hp as [[-> Hbs]|Hp].
      - rewrite Herr. destruct bs; [contradiction | simpl; lia].
      - destruct (rerr r1); [lia | contradiction]. }
    apply IH; lia.
Qed.

Lemma line_fuel_enough (r : Reader) (c : net_Conn) : line_measure r c <= line_fuel r c.
Proof. unfold line_measure, line_fuel. destruct (rerr r); lia. Qed.

Lemma cut_line_split (b l rest : list byte) :
  cut_line b = Some (l, rest) -> b = l ++ rest /\ l <> [].
Proof.
  revert l. induction b as [|x b IH]; intros l H; simpl in H; [discriminate|].
  destruct (Byte.eqb x LF).
  - injection H as <- <-. split; [reflexivity | discriminate].
  - destruct (cut_line b) as [[l0 rest0]|]; [|discriminate].
    injection H as <- <-. destruct (IH l0 eq_refl) as [-> _].
    split; [reflexivity | discriminate].
Qed.

(** A line that is read takes at least one byte away. *)
Lemma readLineSlice_consumes (fuel : nat) :
  forall acc (r : Reader) (c : net_Conn) l r' c',
    readLineSlice fuel acc r c = (inl l, r', c') ->
    length (rbuf r') + length (unread c') < length (rbuf r) + length (unread c).
Proof.
  induction fuel as [|fuel IH]; intros acc r c l r' c' H; [discriminate|].
  rewrite readLineSlice_S in H.
  destruct (cut_line (rbuf r)) as [[l0 rest]|] eqn:Ec.
  { injection H as _ <- <-. apply cut_line_split in Ec as [-> Hl]. simpl.
    rewrite length_app. destruct l0; [contradiction | simpl; lia]. }
  destruct (rerr r).
  { destruct (rbuf r); [discriminate|]. injection H as _ <- <-. simpl. lia. }
  destruct (defaultBufSize <=? length (rbuf r)).
  - destruct (split_full (rbuf r)) as [piece keep] eqn:Es.
    apply split_full_spec in Es as (Hb & _ & _).
    apply IH in H. simpl in H. rewrite Hb, length_app. lia.
  - destruct (fill r c) as [r1 c1] eqn:Ef.
    destruct (fill_loop_spec _ _ _ _ _ Ef) as (bs & Hb & Hs & _).
    apply IH in H. rewrite Hb, length_app in H. rewrite <- Hs, length_app. lia.
Qed.

(** Nor does the result of the header reader depend on the fuel, from
    [header_fuel] on. *)
Lemma readHeaderLines_fuel (fuel : nat) :
  forall fuel' h (r : Reader) (c : net_Conn),
    header_fuel r c <= fuel -> header_fuel r c <= fuel' ->
    readHeaderLines fuel h r c = readHeaderLines fuel' h r c.
Proof.
  induction fuel as [|fuel IH]; intros fuel' h r c H H';
    [unfold header_fuel in H; lia|].
  destruct fuel' as [|fuel']; [unfold header_fuel in H'; lia|].
  rewrite !readHeaderLines_S.
  destruct (ReadLine r c) as [[[line|e] r1] c1] eqn:E; [|reflexivity].
  assert (Hm : header_fuel r1 c1 < header_fuel r c).
  { unfold ReadLine in E.
    destruct (readLineSlice (line_fuel r c) [] r c) as [[[l|e] r0] c0] eqn:E0;
      [|discriminate].
    injection E as _ <- <-. apply readLineSlice_consumes in E0.
    unfold header_fuel. lia. }
  destruct line as [|ch line]; [reflexivity|].
  apply IH; lia.
Qed.

(** ** The tunnel: replay *)

(** An answer without header lines whose status line says 200 is read
    without error. *)
Lemma ReadResponse_no_header checks (status blank payload : list byte) (c : net_Conn)
    (proto st : string) :
  live c ->
  unread c = response_head status [] blank ++ payload ->
  head_ok status [] blank = true ->
  parse_status_line (string_of_list_byte (chomp (wire status))) = inl (proto, st, 200%Z) ->
  exists r' c',
    ReadResponse checks NewReader c = (inl (mkResponse st 200%Z proto []), r', c').
Proof.
  unfold response_head, head_ok. intros Hlive Hs Hok Hp.
  apply andb_prop in Hok as [Hok He]. apply andb_prop in Hok as [Hok Hb].
  simpl in Hok. apply andb_prop in Hok as [Hst _]. apply andb_prop in Hst as [Hst _].
  simpl in Hs. unfold wire at 1 in Hs. rewrite <- !app_assoc in Hs. simpl in Hs.
  destruct (ReadLine_line NewReader c status _ Hlive eq_refl Hs (no_LFb_spec _ Hst))
    as (r1 & c1 & Hr & Herr1 & Hs1 & Hlive1 & Hfrom1).
  unfold wire in Hs1. rewrite <- app_assoc in Hs1. simpl in Hs1.
  destruct (ReadLine_line r1 c1 blank payload Hlive1 Herr1 Hs1 (no_LFb_spec _ Hb))
    as (r2 & c2 & Hr2 & _).
  unfold empty_line in He. destruct (chomp (wire blank)); [|discriminate].
  exists r2, c2. unfold ReadResponse. rewrite Hr, Hp.
  unfold header_fuel. rewrite Nat.add_1_r, readHeaderLines_S, Hr2. reflexivity.
Qed.

(** C2: let the proxy answer the CONNECT request with a head and then
    [payload], delivered in whatever pieces.  If the status line says
    200 and the head has no header lines, [Dial] succeeds.  Whenever
    [Dial] succeeds, the status was 200 and the connection it returns
    has exactly [payload] pending; reads of whatever buffer lengths
    hand out a prefix of [payload] and leave the rest pending, so that
    no byte is lost, repeated or out of order; and as many reads with
    room for a byte as [payload] has bytes hand out all of it.  A read
    is served from the handshake's reader while that holds bytes, and
    by the connection itself once it holds none. *)
Theorem tunnel_replays_buffered_bytes (rt : Runtime) (s : httpProxy) (net address : string)
    (conn : net_Conn) (status : list byte) (hdrs : list (list byte))
    (blank payload : list byte) :
  is_nil (forward s) = false ->
  rt_dial rt (forward s) (network s) (dialAddr s) = (Some conn, None) ->
  live conn ->
  head_ok status hdrs blank = true ->
  unread conn = response_head status hdrs blank ++ payload ->
  (forall req proto st,
     first_deadline_failure conn = None ->
     failWrite conn = None ->
     rt_request rt address = inl req ->
     hdrs = [] ->
     parse_status_line (string_of_list_byte (chomp (wire status))) = inl (proto, st, 200%Z) ->
     exists bc, Dial rt s net address = Returned (Some (wrappedConn bc)) None (Some (Conn bc))) /\
  (forall v leg,
     Dial rt s net address = Returned (Some v) None leg ->
     exists bc,
       v = wrappedConn bc /\
       (exists proto st,
          parse_status_line (string_of_list_byte (chomp (wire status)))
          = inl (proto, st, 200%Z)) /\
       pending bc = payload /\
       (forall ns,
          concat (fst (read_all ns bc)) ++ pending (snd (read_all ns bc)) = payload) /\
       (forall ns,
          Forall (fun n => 0 < n) ns -> length payload <= length ns ->
          concat (fst (read_all ns bc)) = payload)) /\
  (forall n bc,
     rbuf (reader bc) <> [] ->
     bufferedConn_Read n bc
     = (firstn n (rbuf (reader bc)), None,
        mkBufferedConn (Conn bc) (mkReader (skipn n (rbuf (reader bc))) (rerr (reader bc))))) /\
  (forall n bc,
     rbuf (reader bc) = [] ->
     bufferedConn_Read n bc
     = (let '(bs, e, c') := conn_Read n (Conn bc) in (bs, e, mkBufferedConn c' (reader bc)))).
Proof.
  intros Hf Hd Hlive Hok Hs.
  split; [|split; [|split; [apply bufferedConn_Read_buffered | apply bufferedConn_Read_drained]]].
  - intros req proto st Hdl Hw Hreq -> Hp.
    rewrite (Dial_armed rt s net address conn Hf Hd Hdl).
    destruct Hlive as [Hopen Hsegs].
    unfold connect, Request_Write, conn_Write. rewrite Hreq.
    cbn [closed armed with_deadlines failWrite]. rewrite Hopen, Hw.
    match goal with |- context [ReadResponse ?k NewReader ?c] =>
      destruct (ReadResponse_no_header k status blank payload c proto st) as (r' & c' & Hr);
        [split; assumption | exact Hs | exact Hok | exact Hp |]
    end.
    rewrite Hr. cbn [StatusCode Z.eqb Pos.eqb negb]. eexists. reflexivity.
  - intros v leg HD.
    destruct (first_deadline_failure conn) as [err|] eqn:Hdl.
    { destruct (Dial_deadline_failure rt s net address conn err Hf Hd Hdl) as (l & Hl & _).
      rewrite Hl in HD. discriminate. }
    rewrite (Dial_armed rt s net address conn Hf Hd Hdl) in HD.
    unfold connect in HD.
    destruct (Request_Write rt address (armed rt s conn)) as [[e|] written] eqn:Hw;
      [destruct (connValue_Close (plainConn written)); discriminate|].
    apply Request_Write_ok in Hw as (_ & Hin & Hopen).
    destruct (ReadResponse (rt_checks rt) NewReader written) as [[[resp|e] br] after] eqn:Hr;
      [|destruct (connValue_Close (plainConn after)); discriminate].
    destruct (Z.eqb_spec (StatusCode resp) 200) as [Hcode|Hcode]; cbn [negb] in HD;
      [|destruct (connValue_Close (plainConn after)); discriminate].
    injection HD as <- _.
    assert (Hlive' : live written).
    { destruct Hlive as [_ Hsegs]. split; [exact Hopen|]. rewrite Hin. exact Hsegs. }
    assert (Hs' : rbuf NewReader ++ unread written = response_head status hdrs blank ++ payload).
    { unfold unread. rewrite Hin. exact Hs. }
    destruct (ReadResponse_head status hdrs blank payload _ NewReader written resp br after
                Hlive' eq_refl Hs' Hok Hr) as (Herr & Hpay & Hlive2 & _ & Hp).
    change (pending (mkBufferedConn after br) = payload) in Hpay.
    exists (mkBufferedConn after br).
    split; [reflexivity|]. split; [rewrite Hcode in Hp; eauto|].
    split; [exact Hpay|]. split.
    + intros ns. rewrite read_all_stream. exact Hpay.
    + intros ns Hns Hlen.
      pose proof (read_all_stream ns (mkBufferedConn after br)) as Hall.
      rewrite (read_all_drains ns (mkBufferedConn after br) Hlive2 Hns) in Hall
        by (rewrite Hpay; exact Hlen).
      rewrite app_nil_r in Hall. rewrite Hall. exact Hpay.
Qed.

(** ** Instances *)

#[local] Transparent defaultBufSize.

Lemma rejected_tunnel_is_closed_witness :
  exists after,
    closed after = false /\
    Dial (sample_runtime conn_407) sample_proxy "tcp" "example.com:443"
    = Returned None
        (Some (errorString "unable to proxy connection: 407 Proxy Authentication Required"))
        (Some (with_closed after true)).
Proof.
  edestruct (rejected_tunnel_is_closed (sample_runtime conn_407) sample_proxy
               "tcp" "example.com:443" conn_407) as (_ & Ho & HD);
    [ reflexivity | reflexivity | reflexivity
    | vm_compute; reflexivity | vm_compute; reflexivity | vm_compute; discriminate | ].
  eexists. split; [exact Ho | exact HD].
Defined.

(** C1 as stated, with the connection handed to the caller open,
    fails: after a 407 answer [Dial] returns no connection at all, and
    the connection of the proxy leg is closed. *)
Lemma rejected_tunnel_conn_not_returned :
  (exists leg,
     Dial (sample_runtime conn_407) sample_proxy "tcp" "example.com:443"
     = Returned None
         (Some (errorString "unable to proxy connection: 407 Proxy Authentication Required"))
         (Some leg) /\
     closed leg = true) /\
  ~ (exists v err leg,
       Dial (sample_runtime conn_407) sample_proxy "tcp" "example.com:443"
       = Returned (Some v) err leg).
Proof.
  split.
  - eexists. split; vm_compute; reflexivity.
  - intros (v & err & leg & H). vm_compute in H. discriminate.
Qed.

(** An answer that the library refuses is not a rejection by the
    proxy: the error is the library's, whatever the status line says,
    and the connection is closed all the same. *)
Lemma refused_answer_is_a_parse_error :
  exists leg,
    Dial (sample_runtime conn_407_malformed) sample_proxy "tcp" "example.com:443"
    = Returned None (Some (badStringError "bad Content-Length" "abc")) (Some leg) /\
    closed leg = true.
Proof. eexists. split; vm_compute; reflexivity. Qed.

Lemma tunnel_replays_buffered_bytes_witness :
  exists bc,
    Dial (sample_runtime conn_200) sample_proxy "tcp" "example.com:443"
    = Returned (Some (wrappedConn bc)) None (Some (Conn bc)) /\
    concat (fst (read_all [3; 1; 4; 1; 5; 9; 2; 6; 5; 3; 5; 8] bc))
    = list_byte_of_string "hello, world".
Proof.
  destruct (tunnel_replays_buffered_bytes (sample_runtime conn_200) sample_proxy
              "tcp" "example.com:443" conn_200
              (list_byte_of_string "HTTP/1.1 200 Connection established" ++ [CR])
              [list_byte_of_string "Proxy-Agent: test" ++ [CR]]
              [CR]
              (list_byte_of_string "hello, world")) as (_ & HB & _).
  - reflexivity.
  - reflexivity.
  - split; [reflexivity | repeat constructor; discriminate].
  - vm_compute. reflexivity.
  - vm_compute. reflexivity.
  - edestruct HB as (bc & Hv & _ & _ & _ & Hdrain); [vm_compute; reflexivity|].
    exists bc. injection Hv as Hbc. subst bc. split.
    + vm_compute. reflexivity.
    + apply Hdrain; [repeat constructor; lia | vm_compute; lia].
Defined.

(** * Further properties *)

#[local] Opaque defaultBufSize.

(** ** envOnce: resolved once *)

Lemma envOnce_Get_Get (env env' : Environ) (e : envOnce) :
  envOnce_Get env' (snd (envOnce_Get env e)) = envOnce_Get env e.
Proof.
  unfold envOnce_Get. destruct (once e) eqn:E; simpl; [now rewrite E | reflexivity].
Qed.

Lemma init_loop_fresh (env : Environ) (ns : list string) :
  init_loop env ns "" = first_nonempty (map (Getenv env) ns).
Proof. destruct ns as [|n ns]; [reflexivity | apply init_loop_first_nonempty]. Qed.

(** X1: once an entry has been asked, it is resolved for good: any
    later [Get], in whatever environment, returns the same value and
    leaves the entry as it is. *)
Theorem envOnce_Get_memoizes (env env' : Environ) (e : envOnce) :
  once (snd (envOnce_Get env e)) = true /\
  names (snd (envOnce_Get env e)) = names e /\
  envOnce_Get env' (snd (envOnce_Get env e)) = envOnce_Get env e.
Proof.
  split; [|split; [|apply envOnce_Get_Get]];
    unfold envOnce_Get; destruct (once e) eqn:E; simpl; auto.
Qed.

(** X2: [reset] undoes the memoization: whatever the entry held, the
    next [Get] resolves it afresh, first non-empty name first, from
    the environment of that moment. *)
Theorem envOnce_reset_resolves_afresh (env env' : Environ) (e : envOnce) :
  fst (envOnce_Get env' (envOnce_reset (snd (envOnce_Get env e))))
  = first_nonempty (map (Getenv env') (names e)).
Proof.
  unfold envOnce_Get at 1, envOnce_reset, envOnce_init. cbn [once names val fst].
  rewrite init_loop_fresh. f_equal. f_equal.
  unfold envOnce_Get. destruct (once e); reflexivity.
Qed.


(** ** The registry: insert and lookup *)

Lemma builtin_scheme_false (scheme : string) :
  builtin_scheme scheme = false ->
  String.eqb scheme "socks5" = false /\ String.eqb scheme "http" = false /\
  String.eqb scheme "https" = false.
Proof.
  unfold builtin_scheme. intros H.
  apply orb_false_iff in H as [H H3]. apply orb_false_iff in H as [H1 H2]. auto.
Qed.

(** X4: a factory registered under a scheme that is not built in is
    the one [FromURL] calls for that scheme, whatever the registry
    held before, an earlier factory for the same scheme included; its
    result is returned as it is. *)
Theorem registered_scheme_resolves (ext : Externals) (schemes : Schemes) (f : Factory)
    (u : URL) (fwd : Dialer) (t : Duration) :
  builtin_scheme (Scheme u) = false ->
  FromURL ext (RegisterDialerType (Scheme u) f schemes) u fwd t = f u fwd t.
Proof.
  intros H. apply builtin_scheme_false in H as (H1 & H2 & H3).
  unfold FromURL, RegisterDialerType. rewrite H1, H2, H3. cbn [orb].
  now rewrite lookup_insert_eq.
Qed.

Lemma registered_scheme_resolves_witness :
  FromURL sample_ext
    (RegisterDialerType "gopher" sample_factory
       (RegisterDialerType "gopher" (fun _ _ _ => (nilDialer, None)) None))
    (mkURL "gopher" "" None "proxy:70" "") Direct 5%Z
  = (ForeignDialer "custom" ["proxy:70"] [Direct], None).
Proof.
  apply (registered_scheme_resolves sample_ext
           (RegisterDialerType "gopher" (fun _ _ _ => (nilDialer, None)) None)
           sample_factory (mkURL "gopher" "" None "proxy:70" "") Direct 5%Z).
  reflexivity.
Defined.

(** X5: registering a factory under one scheme changes nothing for
    URLs of any other scheme. *)
Theorem registration_leaves_other_schemes (ext : Externals) (schemes : Schemes)
    (scheme : string) (f : Factory) (u : URL) (fwd : Dialer) (t : Duration) :
  Scheme u <> scheme ->
  FromURL ext (RegisterDialerType scheme f schemes) u fwd t = FromURL ext schemes u fwd t.
Proof.
  intros Hne. unfold FromURL, RegisterDialerType.
  destruct (String.eqb (Scheme u) "socks5"); [reflexivity|].
  destruct (String.eqb (Scheme u) "http" || String.eqb (Scheme u) "https"); [reflexivity|].
  rewrite lookup_insert_ne by congruence.
  destruct schemes as [m|]; [reflexivity|].
  now rewrite lookup_empty.
Qed.

Lemma registration_leaves_other_schemes_witness :
  FromURL sample_ext (RegisterDialerType "gopher" sample_factory None)
          (mkURL "ftp" "" None "proxy:21" "") Direct 5%Z
  = FromURL sample_ext None (mkURL "ftp" "" None "proxy:21" "") Direct 5%Z.
Proof.
  apply (registration_leaves_other_schemes sample_ext None "gopher" sample_factory
           (mkURL "ftp" "" None "proxy:21" "") Direct 5%Z).
  discriminate.
Defined.

(** ** Resolution of HTTP proxies *)

Lemma FromURL_http (ext : Externals) (schemes : Schemes) (u : URL)
    (fwd : Dialer) (t : Duration) :
  Scheme u = "http" \/ Scheme u = "https" ->
  FromURL ext schemes u fwd t
  = (HTTPDialer (mkHTTPProxy (url_user u) (url_password u) "tcp" (Host u) fwd t), None).
Proof.
  unfold FromURL, HTTPProxyDialer, auth_of_URL, url_user, url_password.
  intros [-> | ->]; cbn [String.eqb Ascii.eqb Bool.eqb orb]; destruct (UserInfo u); reflexivity.
Qed.



(** X7: when the resolved proxy string parses as an [http] or [https]
    URL, [FromEnvironment] does not fall back to [Direct]: it returns
    the tunnel dialer for the URL's host, with [Direct] as forward
    dialer and the timeout of the environment, on its own when the
    bypass list is empty and else inside the per-host router, with
    [Direct] for the hosts of the list. *)
Theorem FromEnvironment_http_tunnel (ext : Externals) (env : Environ) (g : Globals) (u : URL) :
  fst (envOnce_Get env (allProxyEnv g)) <> "" ->
  ext_Parse ext (fst (envOnce_Get env (allProxyEnv g))) = inl u ->
  Scheme u = "http" \/ Scheme u = "https" ->
  let tunnel :=
    HTTPDialer (mkHTTPProxy (url_user u) (url_password u) "tcp" (Host u) Direct
                  (env_timeout_duration (fst (envOnce_Get env (timeoutEnv g))))) in
  let noProxy := fst (envOnce_Get env (noProxyEnv g)) in
  fst (FromEnvironment ext env g)
  = if String.eqb noProxy "" then tunnel else ext_PerHost ext tunnel Direct noProxy.
Proof.
  intros Hne Hp Hs. cbn zeta.
  rewrite (FromEnvironment_parsed ext env g u Hne Hp).
  now rewrite (FromURL_http ext (proxySchemes g) u Direct _ Hs).
Qed.

Lemma FromEnvironment_http_tunnel_witness :
  fst (FromEnvironment sample_ext sample_env initial_Globals)
  = ForeignDialer "perhost" ["localhost"]
      [HTTPDialer (mkHTTPProxy "" "" "tcp" "proxy:8080" Direct 500000000%Z); Direct].
Proof.
  apply (FromEnvironment_http_tunnel sample_ext sample_env initial_Globals
           (mkURL "http" "" None "proxy:8080" ""));
    [vm_compute; discriminate | vm_compute; reflexivity | left; reflexivity].
Defined.

(** ** Dial: how it ends *)

Lemma connValue_Close_closed (v : connValue) :
  closed (raw_of (snd (connValue_Close v))) = true.
Proof.
  destruct v as [c|bc]; unfold connValue_Close.
  - pose proof (conn_Close_closed c). destruct (conn_Close c). exact H.
  - pose proof (conn_Close_closed (Conn bc)). destruct (conn_Close (Conn bc)). exact H.
Qed.

Lemma Request_Write_frame (rt : Runtime) (target : string) (c c' : net_Conn) oe :
  Request_Write rt target c = (oe, c') ->
  closed c' = closed c /\ inbound c' = inbound c /\
  readDeadline c' = readDeadline c /\ writeDeadline c' = writeDeadline c.
Proof.
  unfold Request_Write, conn_Write. intros H.
  destruct (rt_request rt target); [|injection H as <- <-; auto].
  destruct (closed c) eqn:E; [injection H as <- <-; auto|].
  destruct (failWrite c); injection H as <- <-; simpl; auto.
Qed.

(** What [connect] returns, and in which state. *)
Lemma connect_shape (rt : Runtime) (s : httpProxy) (conn : net_Conn) (target : string)
    (v : connValue) (oe : option error) :
  connect rt s conn target = (v, oe) ->
  closed (raw_of v) = closed conn /\
  readDeadline (raw_of v) = readDeadline conn /\
  writeDeadline (raw_of v) = writeDeadline conn /\
  match oe with
  | Some _ => exists c, v = plainConn c
  | None => exists bc, v = wrappedConn bc /\ closed conn = false
  end.
Proof.
  unfold connect. intros H.
  destruct (Request_Write rt target conn) as [[e|] written] eqn:Hw.
  { apply Request_Write_frame in Hw as (A & _ & B & C).
    injection H as <- <-. simpl. eauto 6. }
  pose proof (Request_Write_ok _ _ _ _ Hw) as (Hopen & _ & _).
  apply Request_Write_frame in Hw as (A & _ & B & C).
  destruct (ReadResponse (rt_checks rt) NewReader written) as [[res br] after] eqn:Hr.
  apply ReadResponse_read_from in Hr. unfold read_from in Hr.
  assert (A' : closed after = closed conn) by (rewrite Hr; exact A).
  assert (B' : readDeadline after = readDeadline conn) by (rewrite Hr; exact B).
  assert (C' : writeDeadline after = writeDeadline conn) by (rewrite Hr; exact C).
  destruct res as [resp|e]; [|injection H as <- <-; simpl; eauto 6].
  destruct (negb (StatusCode resp =? 200)%Z); injection H as <- <-; simpl; eauto 6.
Qed.

(** X8: [connect] never closes the connection and never touches its
    deadlines, however it ends; with an error it returns the very
    connection it was given, without an error a [bufferedConn] around
    it. *)
Theorem connect_leaves_closing_to_caller (rt : Runtime) (s : httpProxy) (conn : net_Conn)
    (target : string) :
  closed (raw_of (fst (connect rt s conn target))) = closed conn /\
  readDeadline (raw_of (fst (connect rt s conn target))) = readDeadline conn /\
  writeDeadline (raw_of (fst (connect rt s conn target))) = writeDeadline conn /\
  match snd (connect rt s conn target) with
  | Some _ => exists c, fst (connect rt s conn target) = plainConn c
  | None => exists bc, fst (connect rt s conn target) = wrappedConn bc /\ closed conn = false
  end.
Proof.
  destruct (connect rt s conn target) as [v oe] eqn:E.
  exact (connect_shape rt s conn target v oe E).
Qed.

Lemma Dial_connected (rt : Runtime) (s : httpProxy) (net address : string) (conn : net_Conn) :
  is_nil (forward s) = false ->
  rt_dial rt (forward s) (network s) (dialAddr s) = (Some conn, None) ->
  (exists err leg,
     Dial rt s net address = Returned None (Some err) (Some leg) /\ closed leg = true) \/
  (exists bc,
     Dial rt s net address = Returned (Some (wrappedConn bc)) None (Some (Conn bc)) /\
     closed (Conn bc) = false /\
     readDeadline (Conn bc) = Some (Time_Add (rt_now rt 1) (timeout s)) /\
     writeDeadline (Conn bc) = Some (Time_Add (rt_now rt 2) (timeout s))).
Proof.
  intros Hf Hd.
  destruct (first_deadline_failure conn) as [err|] eqn:Hdl.
  { destruct (Dial_deadline_failure rt s net address conn err Hf Hd Hdl) as (l & Hl & Hc & _).
    left. eauto. }
  rewrite (Dial_armed rt s net address conn Hf Hd Hdl).
  destruct (connect rt s (armed rt s conn) address) as [v [err|]] eqn:Hc.
  - left. pose proof (connValue_Close_closed v) as Hcl.
    destruct (connValue_Close v) as [e v']. eauto.
  - right. apply connect_shape in Hc as (A & B & C & bc & -> & D).
    exists bc. cbn [raw_of] in *. repeat split; [congruence | exact B | exact C].
Qed.

(** X9: [Dial] panics, rather than return an error, when its forward
    dialer is nil and when the forward dialer returns neither a
    connection nor an error.  When the forward dialer returns an
    error, [Dial] returns that very error and no connection, and
    leaves whatever connection came with the error as it is, not
    closed. *)
Theorem Dial_panics_on_nil (rt : Runtime) (s : httpProxy) (net address : string) :
  (is_nil (forward s) = true -> Dial rt s net address = Panicked) /\
  (is_nil (forward s) = false ->
   rt_dial rt (forward s) (network s) (dialAddr s) = (None, None) ->
   Dial rt s net address = Panicked) /\
  (forall leg err,
     is_nil (forward s) = false ->
     rt_dial rt (forward s) (network s) (dialAddr s) = (leg, Some err) ->
     Dial rt s net address = Returned None (Some err) leg).
Proof.
  split; [|split].
  - intros Hf. unfold Dial. now rewrite Hf.
  - intros Hf Hd. unfold Dial. now rewrite Hf, Hd.
  - intros leg err Hf Hd. now apply Dial_forward_error.
Qed.

Lemma Dial_panics_on_nil_witness :
  Dial (sample_runtime conn_200) (mkHTTPProxy "" "" "tcp" "proxy:8080" nilDialer 5%Z)
       "tcp" "example.com:443"
  = Panicked.
Proof.
  destruct (Dial_panics_on_nil (sample_runtime conn_200)
              (mkHTTPProxy "" "" "tcp" "proxy:8080" nilDialer 5%Z) "tcp" "example.com:443")
    as (H & _).
  apply H. reflexivity.
Defined.

(** X10: once the forward dialer has produced a connection, [Dial]
    ends in one of two ways and leaks nothing: either it returns an
    error and no connection, and the connection of the proxy leg is
    closed, whatever went wrong (a deadline, the request, the answer,
    the status); or it returns no error and a [bufferedConn] around
    the connection of the proxy leg, which is open. *)
Theorem Dial_closes_on_every_error (rt : Runtime) (s : httpProxy) (net address : string)
    (conn : net_Conn) :
  is_nil (forward s) = false ->
  rt_dial rt (forward s) (network s) (dialAddr s) = (Some conn, None) ->
  (exists err leg,
     Dial rt s net address = Returned None (Some err) (Some leg) /\ closed leg = true) \/
  (exists bc,
     Dial rt s net address = Returned (Some (wrappedConn bc)) None (Some (Conn bc)) /\
     closed (Conn bc) = false).
Proof.
  intros Hf Hd.
  destruct (Dial_connected rt s net address conn Hf Hd)
    as [H | (bc & H & Hc & _)]; [left; exact H | right; eauto].
Qed.

Lemma connect_writes_request (rt : Runtime) (s : httpProxy) (conn : net_Conn)
    (target : string) (v : connValue) :
  connect rt s conn target = (v, None) ->
  exists req, rt_request rt target = inl req /\ outbound (raw_of v) = outbound conn ++ req.
Proof.
  unfold connect, Request_Write, conn_Write. intros H.
  destruct (rt_request rt target) as [req|e]; [|discriminate].
  destruct (closed conn); [discriminate|].
  destruct (failWrite conn); [discriminate|].
  match type of H with context [ReadResponse ?k NewReader ?c] =>
    destruct (ReadResponse k NewReader c) as [[res br] after] eqn:Hr
  end.
  apply ReadResponse_read_from in Hr. unfold read_from in Hr.
  destruct res as [resp|e]; [|discriminate].
  destruct (negb (StatusCode resp =? 200)%Z); [discriminate|].
  injection H as <-. exists req. split; [reflexivity|].
  cbn [raw_of Conn]. rewrite Hr. reflexivity.
Qed.

(** X11: the connection that a successful [Dial] returns still carries
    the deadlines of the handshake: its read deadline is the second
    reading of the clock plus the timeout, its write deadline the
    third reading plus the timeout, and [Dial] clears neither.  All
    that was written to it is the CONNECT request for the target. *)
Theorem Dial_success_keeps_deadlines (rt : Runtime) (s : httpProxy) (net address : string)
    (conn : net_Conn) (v : connValue) (leg : option net_Conn) :
  is_nil (forward s) = false ->
  rt_dial rt (forward s) (network s) (dialAddr s) = (Some conn, None) ->
  Dial rt s net address = Returned (Some v) None leg ->
  leg = Some (raw_of v) /\
  readDeadline (raw_of v) = Some (Time_Add (rt_now rt 1) (timeout s)) /\
  writeDeadline (raw_of v) = Some (Time_Add (rt_now rt 2) (timeout s)) /\
  exists req,
    rt_request rt address = inl req /\ outbound (raw_of v) = outbound conn ++ req.
Proof.
  intros Hf Hd HD.
  destruct (first_deadline_failure conn) as [err|] eqn:Hdl.
  { destruct (Dial_deadline_failure rt s net address conn err Hf Hd Hdl) as (l & Hl & _).
    rewrite Hl in HD. discriminate. }
  rewrite (Dial_armed rt s net address conn Hf Hd Hdl) in HD.
  destruct (connect rt s (armed rt s conn) address) as [v' [err|]] eqn:Hc;
    [destruct (connValue_Close v'); discriminate|].
  injection HD as <- <-.
  pose proof (connect_shape _ _ _ _ _ _ Hc) as (_ & B & C & _).
  pose proof (connect_writes_request _ _ _ _ _ Hc) as (req & Hreq & Ho).
  repeat split; [exact B | exact C | eauto].
Qed.

Lemma Dial_closes_on_every_error_witness :
  (exists err leg,
     Dial (sample_runtime conn_407) sample_proxy "tcp" "example.com:443"
     = Returned None (Some err) (Some leg) /\ closed leg = true) \/
  (exists bc,
     Dial (sample_runtime conn_407) sample_proxy "tcp" "example.com:443"
     = Returned (Some (wrappedConn bc)) None (Some (Conn bc)) /\
     closed (Conn bc) = false).
Proof.
  apply (Dial_closes_on_every_error (sample_runtime conn_407) sample_proxy
           "tcp" "example.com:443" conn_407); reflexivity.
Defined.

Lemma Dial_success_keeps_deadlines_witness :
  exists v,
    readDeadline (raw_of v) = Some 5000001%Z /\
    writeDeadline (raw_of v) = Some 5000002%Z /\
    exists req,
      connect_request "example.com:443" = inl req /\ outbound (raw_of v) = [] ++ req.
Proof.
  eexists.
  refine (proj2 (Dial_success_keeps_deadlines (sample_runtime conn_200) sample_proxy
                   "tcp" "example.com:443" conn_200 _ _ eq_refl eq_refl _)).
  vm_compute. reflexivity.
Defined.

(** ** Reading after Close, and between writes *)

Lemma closed_Read (n : nat) (bc bc' : bufferedConn) bs e :
  closed (Conn bc) = true ->
  bufferedConn_Read n bc = (bs, e, bc') ->
  bs ++ rbuf (reader bc') = rbuf (reader bc) /\
  closed (Conn bc') = true /\
  (0 < n -> rbuf (reader bc) <> [] -> bs <> []).
Proof.
  intros Hc H.
  destruct (rbuf (reader bc)) as [|x b] eqn:Eb.
  - rewrite (bufferedConn_Read_drained n bc Eb) in H.
    unfold conn_Read in H. rewrite Hc in H. injection H as <- <- <-.
    cbn [reader Conn]. rewrite Eb. auto.
  - rewrite bufferedConn_Read_buffered in H by (rewrite Eb; discriminate).
    injection H as <- <- <-. cbn [reader Conn rbuf]. rewrite Eb.
    split; [apply firstn_skipn|]. split; [exact Hc|].
    intros Hn _. destruct n; [lia | discriminate].
Qed.

Lemma closed_read_all (ns : list nat) :
  forall bc,
    closed (Conn bc) = true ->
    concat (fst (read_all ns bc)) ++ rbuf (reader (snd (read_all ns bc))) = rbuf (reader bc) /\
    (Forall (fun n => 0 < n) ns -> length (rbuf (reader bc)) <= length ns ->
     rbuf (reader (snd (read_all ns bc))) = []).
Proof.
  induction ns as [|n ns IH]; intros bc Hc.
  - simpl. split; [reflexivity|]. intros _ H. destruct (rbuf (reader bc)); [reflexivity|].
    simpl in H. lia.
  - rewrite read_all_cons.
    destruct (bufferedConn_Read n bc) as [[bs e] bc1] eqn:E.
    destruct (closed_Read _ _ _ _ _ Hc E) as (Hs & Hc1 & Hp).
    destruct (IH bc1 Hc1) as [IH1 IH2].
    destruct (read_all ns bc1) as [rest bc2]. cbn [fst snd concat] in *.
    split; [now rewrite <- app_assoc, IH1|].
    intros Hns Hlen. apply Forall_cons_iff in Hns as [Hn Hns].
    apply IH2; [exact Hns|].
    destruct (rbuf (reader bc)) as [|x b] eqn:Eb.
    + apply app_eq_nil in Hs as [_ ->]. simpl. lia.
    + assert (bs <> []) by (apply Hp; [exact Hn | discriminate]).
      apply (f_equal (@length byte)) in Hs. rewrite length_app in Hs.
      destruct bs; [contradiction|]. simpl in *. lia.
Qed.

(** X12: closing the tunnel connection does not discard what the
    handshake had buffered: [Read] looks at the reader before the
    connection, so reads after [Close] still hand out the buffered
    bytes, in order and each once, and fail with the closed-connection
    error only once the reader is empty; bytes still on the connection
    are never delivered. *)
Theorem buffered_bytes_survive_Close (bc : bufferedConn) :
  let bc' := snd (bufferedConn_Close bc) in
  closed (Conn bc') = true /\
  (forall ns,
     concat (fst (read_all ns bc')) ++ rbuf (reader (snd (read_all ns bc')))
     = rbuf (reader bc)) /\
  (forall ns,
     Forall (fun n => 0 < n) ns -> length (rbuf (reader bc)) <= length ns ->
     concat (fst (read_all ns bc')) = rbuf (reader bc)) /\
  (forall n b,
     closed (Conn b) = true -> rbuf (reader b) = [] ->
     bufferedConn_Read n b = ([], Some net_ErrClosed, b)).
Proof.
  cbn zeta.
  assert (Hc : closed (Conn (snd (bufferedConn_Close bc))) = true).
  { unfold bufferedConn_Close. pose proof (conn_Close_closed (Conn bc)).
    destruct (conn_Close (Conn bc)). exact H. }
  assert (Hr : rbuf (reader (snd (bufferedConn_Close bc))) = rbuf (reader bc)).
  { unfold bufferedConn_Close. destruct (conn_Close (Conn bc)). reflexivity. }
  split; [exact Hc|]. split; [|split].
  - intros ns. rewrite <- Hr. now apply closed_read_all.
  - intros ns Hns Hlen. destruct (closed_read_all ns _ Hc) as [H1 H2].
    rewrite Hr in H1, H2. rewrite (H2 Hns Hlen), app_nil_r in H1. exact H1.
  - intros n b Hb Hd. rewrite (bufferedConn_Read_drained n b Hd).
    unfold conn_Read. rewrite Hb. destruct b as [c r]. reflexivity.
Qed.

Lemma bufferedConn_Write_pending (b : list byte) (bc : bufferedConn) :
  pending (snd (bufferedConn_Write b bc)) = pending bc.
Proof.
  unfold bufferedConn_Write, conn_Write, pending, unread.
  destruct (closed (Conn bc)); [reflexivity|].
  destruct (failWrite (Conn bc)); reflexivity.
Qed.

(** X13: writes do not disturb what is to be read: however a caller
    mixes reads and writes on the tunnel connection, the bytes its
    reads return, followed by what is still pending, are what was
    pending at the start. *)
Theorem writes_do_not_disturb_reads (ops : list connOp) :
  forall bc, fst (run_ops ops bc) ++ pending (snd (run_ops ops bc)) = pending bc.
Proof.
  induction ops as [|[n|b] ops IH]; intros bc; [reflexivity| |]; cbn [run_ops].
  - destruct (bufferedConn_Read n bc) as [[bs e] bc1] eqn:E.
    specialize (IH bc1). destruct (run_ops ops bc1) as [rest bc2]. cbn [fst snd] in *.
    apply bufferedConn_Read_stream in E as [E _].
    now rewrite <- app_assoc, IH.
  - pose proof (bufferedConn_Write_pending b bc) as Hw.
    destruct (bufferedConn_Write b bc) as [e bc1]. cbn [snd] in Hw.
    now rewrite IH.
Qed.
